(** * Verification of the API-key registry, the authentication gate and the
    chat-completion route of the Vertex AI proxy.

    Sources embedded here:
    - [src/src/core/auth.py]      : [APIKeyManager] (the key registry)
    - [src/src/api/routes.py]     : [extract_api_key_from_request],
                                    [validate_admin_key], [APIKeyMiddleware],
                                    [chat_completions] and its generators
    - [src/src/core/constants.py] : [DISABLE_AUTH] (taken as an input flag)

    Time is an integer clock [now : Z] supplied by the caller of each
    operation; a backing file is described by [store] (existence, mtime,
    the lines [for line in f] yields, and whether reading raises). *)

From stdpp Require Import base gmap strings list fin_maps.
From Stdlib Require Import Ascii String ZArith Lia.

Open Scope string_scope.
Set Warnings "-register-all".

(* ------------------------------------------------------------------ *)
(** ** Python string helpers *)

(** Characters removed by Python's [str.strip()] with no argument,
    restricted to ASCII: [\t \n \x0b \x0c \r], [\x1c]..[\x1f] and space. *)
Definition py_isspace (c : ascii) : bool :=
  let n := nat_of_ascii c in
  (((9 <=? n) && (n <=? 13)) || ((28 <=? n) && (n <=? 32)))%nat.

Fixpoint lstrip (s : string) : string :=
  match s with
  | EmptyString => EmptyString
  | String c s' => if py_isspace c then lstrip s' else s
  end.

Fixpoint rev_str (s : string) (acc : string) : string :=
  match s with
  | EmptyString => acc
  | String c s' => rev_str s' (String c acc)
  end.

Definition rstrip (s : string) : string :=
  rev_str (lstrip (rev_str s EmptyString)) EmptyString.

(** [s.strip()] *)
Definition strip (s : string) : string := rstrip (lstrip s).

(** [s.startswith(p)] *)
Definition startswith (s p : string) : bool := String.prefix p s.

(** [s[n:]] for a non-negative [n]. *)
Definition drop_str (n : nat) (s : string) : string :=
  String.substring n (String.length s - n) s.

(** Split at the first occurrence of [c]. *)
Fixpoint split_once (c : ascii) (s : string) : option (string * string) :=
  match s with
  | EmptyString => None
  | String d s' =>
      if Ascii.eqb c d then Some (EmptyString, s')
      else match split_once c s' with
           | Some (a, b) => Some (String d a, b)
           | None => None
           end
  end.

(** [s.split(c, 2)]: at most two splits, so at most three parts. *)
Definition split2 (c : ascii) (s : string) : list string :=
  match split_once c s with
  | None => [s]
  | Some (a, rest) =>
      match split_once c rest with
      | None => [a; rest]
      | Some (b, d) => [a; b; d]
      end
  end.

(* ------------------------------------------------------------------ *)
(** ** The key registry ([APIKeyManager]) *)

(** The dict stored per key in [self.api_keys]. *)
Record key_record := mk_record {
  name : string;
  description : string;
  created_at : Z;
  usage_count : Z;
  last_used : Z;
  is_active : bool
}.

(** [self.api_keys], [self.active_keys] and [self.last_reload_time]. *)
Record registry := mk_registry {
  api_keys : gmap string key_record;
  active_keys : gset string;
  last_reload_time : Z
}.

(** [APIKeyManager.__init__]. *)
Definition init_registry : registry := mk_registry ∅ ∅ 0.

(** The backing file [self.keys_file]: missing, or present with its
    modification time, the lines iteration yields before it stops, and
    whether iteration then raises (an [open] that fails is a present file
    with no lines and [read_error = true]). *)
Inductive store :=
| StoreMissing
| StorePresent (mtime : Z) (lines : list string) (read_error : bool).

(** The record [load_keys] stores for a parsed line. *)
Definition fresh_record (key_name desc : string) (now : Z) : key_record :=
  mk_record key_name desc now 0 0 true.

(** One iteration of the [for line_num, line in enumerate(f, 1)] loop
    body of [load_keys], on the pair ([self.api_keys], [self.active_keys]). *)
Definition load_line (now : Z)
    (acc : gmap string key_record * gset string) (raw : string)
    : gmap string key_record * gset string :=
  let line := strip raw in
  if String.eqb line "" || startswith line "#" then acc
  else
    match split2 ":" line with
    | key_name_raw :: api_key_raw :: rest =>
        let key_name := strip key_name_raw in
        let api_key := strip api_key_raw in
        let desc := match rest with d :: _ => strip d | [] => "" end in
        if startswith api_key "sk-" then
          (<[api_key := fresh_record key_name desc now]> acc.1,
           {[api_key]} ∪ acc.2)
        else acc
    | _ => acc
    end.

(** The table built from a list of lines, starting from the cleared dicts. *)
Definition parse_lines (now : Z) (ls : list string)
    : gmap string key_record * gset string :=
  fold_left (load_line now) ls (∅, ∅).

(** [APIKeyManager.load_keys]: the boolean result and the new registry.
    A missing file returns [False] before touching anything; otherwise both
    dicts are cleared and refilled in place, and an exception raised while
    reading leaves what was filled so far and skips [last_reload_time]. *)
Definition load_keys (s : registry) (st : store) (now : Z) : bool * registry :=
  match st with
  | StoreMissing => (false, s)
  | StorePresent _ ls err =>
      let tbl := parse_lines now ls in
      if err then (false, mk_registry tbl.1 tbl.2 (last_reload_time s))
      else (true, mk_registry tbl.1 tbl.2 now)
  end.

(** [APIKeyManager._should_reload]. *)
Definition should_reload (s : registry) (st : store) : bool :=
  match st with
  | StoreMissing => false
  | StorePresent m _ _ => Z.ltb (last_reload_time s) m
  end.

(** The locked section of [validate_key] (lines 85-92). *)
Definition validate_locked (s : registry) (k : string) (now : Z)
    : bool * registry :=
  match api_keys s !! k with
  | Some r =>
      if is_active r then
        (true, mk_registry
                 (<[k := mk_record (name r) (description r) (created_at r)
                           (usage_count r + 1) now (is_active r)]> (api_keys s))
                 (active_keys s) (last_reload_time s))
      else (false, s)
  | None => (false, s)
  end.

(** [APIKeyManager.validate_key]. *)
Definition validate_key (s : registry) (st : store) (raw : string) (now : Z)
    : bool * registry :=
  if String.eqb raw "" then (false, s)
  else
    let k := strip raw in
    let s1 := if should_reload s st then (load_keys s st now).2 else s in
    validate_locked s1 k now.

(** [APIKeyManager.get_key_info]. *)
Definition get_key_info (s : registry) (raw : string) : option key_record :=
  if String.eqb raw "" then None else api_keys s !! strip raw.

(** [APIKeyManager.deactivate_key]. *)
Definition deactivate_key (s : registry) (k : string) : bool * registry :=
  match api_keys s !! k with
  | Some r =>
      (true, mk_registry
               (<[k := mk_record (name r) (description r) (created_at r)
                         (usage_count r) (last_used r) false]> (api_keys s))
               (active_keys s ∖ {[k]}) (last_reload_time s))
  | None => (false, s)
  end.

(** [APIKeyManager.activate_key]. *)
Definition activate_key (s : registry) (k : string) : bool * registry :=
  match api_keys s !! k with
  | Some r =>
      (true, mk_registry
               (<[k := mk_record (name r) (description r) (created_at r)
                         (usage_count r) (last_used r) true]> (api_keys s))
               ({[k]} ∪ active_keys s) (last_reload_time s))
  | None => (false, s)
  end.

(** [APIKeyManager.create_key]; [token] is the value of
    [secrets.token_urlsafe(32)]. *)
Definition create_key (s : registry) (key_name desc token : string) (now : Z)
    : string * registry :=
  let k := "sk-" ++ token in
  (k, mk_registry (<[k := fresh_record key_name desc now]> (api_keys s))
                  ({[k]} ∪ active_keys s) (last_reload_time s)).

Example strip_ex : strip "  sk-a   " = "sk-a".
Proof. reflexivity. Qed.

Example split2_ex : split2 ":" "a:sk-b:c:d" = ["a"; "sk-b"; "c:d"].
Proof. reflexivity. Qed.

Example load_ex :
  (api_keys (load_keys init_registry
     (StorePresent 5 ["# c"; ""; " admin_key : sk-x : d "; "bad:key"; "x"] false) 7).2)
    !! "sk-x" = Some (mk_record "admin_key" "d" 7 0 0 true).
Proof. reflexivity. Qed.

(* ------------------------------------------------------------------ *)
(** ** The authentication gate and the admin check ([routes.py]) *)

(** [extract_api_key_from_request]; the argument is
    [request.headers.get("Authorization")]. *)
Definition extract_api_key_from_request (auth_header : option string)
    : option string :=
  match auth_header with
  | None => None
  | Some h =>
      if String.eqb h "" then None
      else
        let h' := strip h in
        if startswith h' "Bearer " then Some (strip (drop_str 7 h'))
        else None
  end.

(** Python truthiness of an optional string: [not s] is [s is None or s == ""]. *)
Definition py_truthy (s : option string) : bool :=
  match s with
  | Some v => negb (String.eqb v "")
  | None => false
  end.

(** [validate_admin_key]; [ADMIN_API_KEY] is the value imported from
    [src.core.constants] ([None] when it is not set). *)
Definition validate_admin_key (ADMIN_API_KEY : option string) (s : registry)
    (api_key : option string) : bool :=
  match api_key with
  | None => false
  | Some k =>
      if String.eqb k "" then false
      else
        let from_registry :=
          match get_key_info s k with
          | Some info => String.eqb (name info) "admin_key" && is_active info
          | None => false
          end in
        if from_registry then true
        else
          match ADMIN_API_KEY with
          | Some a => negb (String.eqb a "") && String.eqb k a
          | None => false
          end
  end.

(** What [APIKeyMiddleware.dispatch] leaves in [request.state]. *)
Inductive req_ctx :=
| CtxUntouched
    (** excluded path: nothing is set *)
| CtxDisabled
    (** [api_key = "disabled"],
        [key_info = {"name": "auth_disabled", "is_active": True}] *)
| CtxKey (api_key : string) (key_info : option key_record).

(** The result of [dispatch]: [call_next(request)] with the context, or a
    [JSONResponse] returned instead of the route handler. *)
Inductive gate_outcome :=
| GateAdmit (ctx : req_ctx)
| GateReject (status_code : Z) (detail : string).

Definition gate_admitted (o : gate_outcome) : bool :=
  match o with GateAdmit _ => true | GateReject _ _ => false end.

(** [APIKeyMiddleware.dispatch] with [excluded_paths] and the module-level
    [DISABLE_AUTH] as inputs; returns the outcome and the registry after
    [api_key_manager.validate_key]. *)
Definition dispatch (excluded_paths : list string) (DISABLE_AUTH : bool)
    (s : registry) (st : store) (now : Z)
    (path : string) (auth_header : option string) : gate_outcome * registry :=
  if bool_decide (path ∈ excluded_paths) then (GateAdmit CtxUntouched, s)
  else if DISABLE_AUTH then (GateAdmit CtxDisabled, s)
  else
    let api_key := extract_api_key_from_request auth_header in
    match api_key with
    | Some k =>
        if String.eqb k "" then (GateReject 401 "missing Authorization header", s)
        else
          let (ok, s') := validate_key s st k now in
          if ok then (GateAdmit (CtxKey k (get_key_info s' k)), s')
          else (GateReject 401 "invalid API key", s')
    | None => (GateReject 401 "missing Authorization header", s)
    end.

(** The excluded paths [create_app] installs. *)
Definition app_excluded_paths : list string := ["/"; "/health"].

Example extract_ex1 :
  extract_api_key_from_request (Some "  Bearer   sk-a  ") = Some "sk-a".
Proof. reflexivity. Qed.

Example extract_ex2 :
  extract_api_key_from_request (Some "Token sk-a") = None.
Proof. reflexivity. Qed.

(* ------------------------------------------------------------------ *)
(** ** The chat-completion route ([chat_completions] in [create_app]) *)

(** JSON values as [request.json()] and [json.dumps] see them. *)
Inductive json :=
| JNull
| JBool (b : bool)
| JNum (z : Z)
| JStr (s : string)
| JArr (l : list json)
| JObj (fields : list (string * json)).

(** [d.get(k)] on a dict parsed from a JSON object ([json.loads] keeps the
    last value of a repeated key, hence the search from the end). *)
Definition jget (k : string) (j : json) : option json :=
  match j with
  | JObj fs =>
      match List.find (fun kv => String.eqb kv.1 k) (rev fs) with
      | Some kv => Some kv.2
      | None => None
      end
  | _ => None
  end.

(** [d.get(k, default)]. *)
Definition jget_default (k : string) (dflt : json) (j : json) : json :=
  match jget k j with Some v => v | None => dflt end.

(** Python truthiness of a JSON value. *)
Definition json_truthy (j : json) : bool :=
  match j with
  | JNull => false
  | JBool b => b
  | JNum z => negb (Z.eqb z 0)
  | JStr s => negb (String.eqb s "")
  | JArr l => negb (List.length l =? 0)%nat
  | JObj fs => negb (List.length fs =? 0)%nat
  end.

(** One item yielded to a [StreamingResponse]: an upstream chunk passed
    through as it is, the string [f"data: {json.dumps(j)}\n\n"], or the
    string ["data: [DONE]\n\n"]. *)
Inductive sse_item :=
| SseRaw (chunk : string)
| SseData (j : json)
| SseDone.

(** Exceptions the upstream client ([vertex_client]) can raise.
    [APIError] and [EmptyResponseError] come from [src.stream.processor];
    they are handled as two separate classes, as the two [except] clauses
    of the route expect.  [ExcHTTP] is an [HTTPException] (which the
    handler re-raises unchanged), [ExcCancelled] is
    [asyncio.CancelledError] (a [BaseException], not an [Exception]) and
    [ExcOther] is any other [Exception]. *)
Inductive upstream_exc :=
| ExcAPIError (msg : string)
| ExcEmptyResponse (msg : string)
| ExcHTTP (status_code : Z) (detail : string)
| ExcCancelled
| ExcOther (msg : string).

(** How the body generator of a [StreamingResponse] finishes. *)
Inductive gen_end :=
| GenDone
| GenRaiseHTTP (status_code : Z) (detail : string)
| GenRaise (e : upstream_exc).

(** [stream_with_disconnect_check]: the upstream [stream_chat] yields
    [chunks] and then either returns ([fin = None]) or raises [fin = Some e];
    [disc i] is the result of the [i]-th [await request.is_disconnected()]
    (checked once per upstream chunk, before it is yielded).  The result is
    the list of yielded items and how the generator ends. *)
Fixpoint stream_with_disconnect_check (i : nat) (chunks : list string)
    (fin : option upstream_exc) (disc : nat -> bool) : list sse_item * gen_end :=
  match chunks with
  | [] =>
      ([], match fin with
           | None => GenDone
           | Some (ExcAPIError m) => GenRaiseHTTP 500 m
           | Some (ExcEmptyResponse m) => GenRaiseHTTP 505 m
           | Some e => GenRaise e
           end)
  | c :: cs =>
      if disc i then ([], GenDone)
      else let '(out, e) := stream_with_disconnect_check (S i) cs fin disc in
           (SseRaw c :: out, e)
  end.

(** The chunk [empty_stream_generator] yields. *)
Definition empty_chunk (uuid : string) (now : Z) (model : json) : json :=
  JObj [("id", JStr ("chatcmpl-proxy-empty-" ++ uuid));
        ("object", JStr "chat.completion.chunk");
        ("created", JNum now);
        ("model", model);
        ("choices", JArr [JObj [("index", JNum 0);
                                ("delta", JObj [("role", JStr "assistant");
                                                ("content", JStr "")]);
                                ("finish_reason", JStr "stop")]])].

(** [empty_stream_generator]: everything it yields. *)
Definition empty_stream_generator (uuid : string) (now : Z) (model : json)
    : list sse_item * gen_end :=
  ([SseData (empty_chunk uuid now model); SseDone], GenDone).

(** The dict returned for an empty message list without streaming. *)
Definition empty_completion (uuid : string) (now : Z) (model : json) : json :=
  JObj [("id", JStr ("chatcmpl-proxy-empty-" ++ uuid));
        ("object", JStr "chat.completion");
        ("created", JNum now);
        ("model", model);
        ("usage", JObj [("prompt_tokens", JNum 0);
                        ("completion_tokens", JNum 0);
                        ("total_tokens", JNum 0)]);
        ("choices", JArr [JObj [("index", JNum 0);
                                ("message", JObj [("role", JStr "assistant");
                                                  ("content", JStr "")]);
                                ("finish_reason", JStr "stop")]])].

(** What the upstream is asked for and answers: [stream_chat] (chunks and
    how it ends, with the disconnect samples of the request) and
    [complete_chat] (a result dict or an exception). *)
Record upstream := mk_upstream {
  up_chunks : list string;
  up_fin : option upstream_exc;
  up_disc : nat -> bool;
  up_complete : json + upstream_exc
}.

(** What the handler produces: a dict (sent as JSON with status 200), a
    [StreamingResponse] (given by what its generator yields and how it
    ends), an [HTTPException], or an exception propagating unchanged. *)
Inductive chat_response :=
| RespJSON (j : json)
| RespStream (out : list sse_item * gen_end)
| RespHTTPError (status_code : Z)
| RespRaise (e : upstream_exc).

(** [chat_completions]; [body] is what [await request.json()] returns
    ([None] when the request body is not valid JSON, so that it raises),
    [uuid] is [uuid.uuid4()] and [now] is [int(time.time())].  A body that
    is not valid JSON, or that parses to something other than an object
    (so that [body.get] raises [AttributeError]), reaches
    [except Exception] and becomes [HTTPException(500)]; an
    [HTTPException] out of [complete_chat] goes through [except
    HTTPException: raise] unchanged; the cancellation, not an [Exception],
    escapes both clauses. *)
Definition chat_completions (body : option json) (uuid : string) (now : Z)
    (up : upstream) : chat_response :=
  match body with
  | Some (JObj fs) =>
      let body := JObj fs in
      let messages := jget_default "messages" (JArr []) body in
      let model := jget_default "model" (JStr "gemini-1.5-pro") body in
      let stream := json_truthy (jget_default "stream" (JBool false) body) in
      if negb (json_truthy messages) then
        if stream then RespStream (empty_stream_generator uuid now model)
        else RespJSON (empty_completion uuid now model)
      else if stream then
        RespStream (stream_with_disconnect_check 0 (up_chunks up) (up_fin up) (up_disc up))
      else
        match up_complete up with
        | inl response_data => RespJSON response_data
        | inr (ExcHTTP c _) => RespHTTPError c
        | inr ExcCancelled => RespRaise ExcCancelled
        | inr _ => RespHTTPError 500
        end
  | _ => RespHTTPError 500
  end.

(** What an ASGI application sends for a response: the status of its
    [http.response.start] message, the [http.response.body] parts, whether
    the closing part ([more_body=False]) is sent, and how the application
    call ends afterwards ([GenDone]: it returns; otherwise it raises). *)
Record asgi_out := mk_asgi_out {
  out_status : Z;
  out_body : list sse_item;
  out_closed : bool;
  out_end : gen_end
}.

(** Starlette's [StreamingResponse.stream_response]: the start message
    carrying [status_code] (200 by default; the route sets none) is sent
    before the body iterator is first advanced, each yielded item is sent
    as a body part, the closing part is sent only when the iterator is
    exhausted, and an exception out of the iterator propagates. *)
Definition streaming_response_send (out : list sse_item * gen_end) : asgi_out :=
  mk_asgi_out 200 out.1 (match out.2 with GenDone => true | _ => false end) out.2.

(** One [BaseHTTPMiddleware] layer around an application that has started
    its response (current Starlette): [call_next] runs the inner
    application in a task that records an [Exception] it raises and then
    closes the stream of messages; the outer response relays the start
    message and the body parts (empty parts, which carry no bytes, are
    skipped), sends its own closing part once that stream is closed, and
    only then re-raises the recorded exception.  A cancellation is not an
    [Exception]: it is not recorded, it cancels the task group, and the
    closing part is not sent. *)
Definition base_http_middleware (o : asgi_out) : asgi_out :=
  mk_asgi_out (out_status o) (out_body o)
    (match out_end o with GenRaise ExcCancelled => false | _ => true end)
    (out_end o).

(** What reaches the client: the status line, the body items, and whether
    the message is terminated normally. *)
Record wire := mk_wire {
  wire_status : Z;
  wire_body : list sse_item;
  wire_complete : bool
}.

(** [create_app] wraps every route in two [BaseHTTPMiddleware] layers,
    [APIKeyMiddleware] and [ConnectionCompatibilityMiddleware] (the
    [CORSMiddleware] outside them passes the messages through). *)
Definition streaming_response_wire (out : list sse_item * gen_end) : wire :=
  let o := base_http_middleware (base_http_middleware (streaming_response_send out)) in
  mk_wire (out_status o) (out_body o) (out_closed o).

Example gen_ex :
  stream_with_disconnect_check 0 ["a"; "b"; "c"] None (fun i => (i =? 1)%nat)
  = ([SseRaw "a"], GenDone).
Proof. reflexivity. Qed.

(* ------------------------------------------------------------------ *)
(** ** Registry operations as a transition system *)

(** The registry operations a caller can run, with their inputs. *)
Inductive reg_op :=
| OpLoad (st : store) (now : Z)
| OpValidate (st : store) (raw : string) (now : Z)
| OpCreate (key_name desc token : string) (now : Z)
| OpActivate (k : string)
| OpDeactivate (k : string).

Definition apply_op (s : registry) (op : reg_op) : registry :=
  match op with
  | OpLoad st now => (load_keys s st now).2
  | OpValidate st raw now => (validate_key s st raw now).2
  | OpCreate n d t now => (create_key s n d t now).2
  | OpActivate k => (activate_key s k).2
  | OpDeactivate k => (deactivate_key s k).2
  end.

Definition run_ops (s : registry) (ops : list reg_op) : registry :=
  fold_left apply_op ops s.

(** The secondary index: [active_keys] is the set of keys whose record is
    active. *)
Definition index_ok (s : registry) : Prop :=
  ∀ k, k ∈ active_keys s ↔ ∃ r, api_keys s !! k = Some r ∧ is_active r = true.

(** A freshly parsed table: the set holds exactly the keys of the dict,
    and every record has zero usage and is active. *)
Definition parsed_ok (p : gmap string key_record * gset string) : Prop :=
  (∀ k, k ∈ p.2 ↔ is_Some (p.1 !! k)) ∧
  (∀ k r, p.1 !! k = Some r →
     usage_count r = 0%Z ∧ last_used r = 0%Z ∧ is_active r = true).

(* ------------------------------------------------------------------ *)
(** ** Statistics and persistence of the registry *)

(** The dict [APIKeyManager.get_stats] returns. *)
Record key_stats := mk_stats {
  st_total_keys : nat;
  st_active_keys : nat;
  st_inactive_keys : nat;
  st_total_usage : Z;
  st_recent_usage : nat;
  st_last_reload : Z
}.

(** [APIKeyManager.get_stats]; [now] is [int(time.time())]. *)
Definition get_stats (s : registry) (now : Z) : key_stats :=
  let vs := (map_to_list (api_keys s)).*2 in
  let total_keys := List.length vs in
  let active := List.length (filter (λ r, is_active r = true) vs) in
  mk_stats total_keys active (total_keys - active)
    (foldr (λ r acc, (usage_count r + acc)%Z) 0%Z vs)
    (List.length (filter (λ r, (now - 3600 < last_used r)%Z) vs))
    (last_reload_time s).

(** The line-feed character ['\n']. *)
Definition nl : string := String (ascii_of_nat 10) EmptyString.

(** The five header lines [save_keys] writes. *)
Definition save_header : list string :=
  ["# API访问密钥配置文件";
   "# 格式: key_name:api_key:description";
   "# 每行一个密钥配置，以#开头的行为注释";
   "# 此文件由程序自动生成，请谨慎编辑";
   ""].

(** [status] in [save_keys]. *)
Definition save_status (r : key_record) : string :=
  if negb (is_active r) then "inactive" else "".

(** [f"{info['name']}:{api_key}:{info['description']} {status}"]. *)
Definition save_line (kv : string * key_record) : string :=
  name kv.2 ++ ":" ++ kv.1 ++ ":" ++ description kv.2 ++ " " ++ save_status kv.2.

(** What [save_keys] writes: ['\n'.join(lines)], where [items] is
    [self.api_keys.items()] in the dict's iteration order. *)
Definition save_keys_content (items : list (string * key_record)) : string :=
  String.concat nl (save_header ++ map save_line items).

(** The lines [for line in f] yields on a file opened in text mode (universal
    newlines): ["\r\n"], ["\r"] and ["\n"] each end a line, which is yielded
    with a trailing ['\n']; a last line without terminator is yielded as it
    is, and nothing is yielded for an empty tail. *)
Fixpoint py_lines_go (s : string) (cur : string) : list string :=
  match s with
  | EmptyString => if String.eqb cur "" then [] else [cur]
  | String c s' =>
      if Ascii.eqb c (ascii_of_nat 10) then (cur ++ nl) :: py_lines_go s' ""
      else if Ascii.eqb c (ascii_of_nat 13) then
        match s' with
        | String d s'' =>
            if Ascii.eqb d (ascii_of_nat 10) then (cur ++ nl) :: py_lines_go s'' ""
            else (cur ++ nl) :: py_lines_go s' ""
        | EmptyString => [cur ++ nl]
        end
      else py_lines_go s' (cur ++ String c EmptyString)
  end.

Definition py_text_lines (content : string) : list string := py_lines_go content "".

(** Does [c] occur in [s] ([c in s]). *)
Fixpoint str_mem (c : ascii) (s : string) : bool :=
  match s with
  | EmptyString => false
  | String d s' => Ascii.eqb c d || str_mem c s'
  end.

(* ------------------------------------------------------------------ *)
(** ** [_parse_bool_env] ([constants.py]) *)

(** [str.lower()] on ASCII. *)
Definition lower_char (c : ascii) : ascii :=
  let n := nat_of_ascii c in
  if ((65 <=? n) && (n <=? 90))%nat then ascii_of_nat (n + 32) else c.

Fixpoint lower (s : string) : string :=
  match s with
  | EmptyString => EmptyString
  | String c s' => String (lower_char c) (lower s')
  end.

(** [_parse_bool_env]; [env] is [os.environ.get(env_name)]. *)
Definition parse_bool_env (env : option string) (default : bool) : bool :=
  let value := strip (lower (match env with Some v => v | None => "" end)) in
  if bool_decide (value ∈ ["true"; "1"; "yes"]) then true
  else if bool_decide (value ∈ ["false"; "0"; "no"]) then false
  else default.

(* ------------------------------------------------------------------ *)
(** ** Admin routes of [create_app] *)

(** What an admin handler answers: a success payload (for key creation the
    new key) or an [HTTPException] status. *)
Inductive admin_result :=
| AdminOk (api_key : option string)
| AdminError (status_code : Z).


(** The [for key, info in api_key_manager.api_keys.items()] search of
    [update_key_status]; [order] is the dict's key iteration order. *)
Fixpoint find_key_by_name (order : list string) (tbl : gmap string key_record)
    (key_name : string) : option string :=
  match order with
  | [] => None
  | k :: ks =>
      match tbl !! k with
      | Some info => if String.eqb (name info) key_name then Some k
                     else find_key_by_name ks tbl key_name
      | None => find_key_by_name ks tbl key_name
      end
  end.

(** [update_key_status]; [body] is what [await request.json()] returns
    ([None] when the body is not valid JSON).  As in [create_api_key], a
    body that is not valid JSON or not an object makes [request.json()] or
    [body.get] raise, and the client gets 500 with the registry untouched;
    otherwise [is_active] is [body.get('is_active')] ([None] when absent). *)
Definition update_key_status_route (ADMIN_API_KEY : option string) (s : registry)
    (order : list string) (state_api_key : option string) (key_name : string)
    (body : option json) : admin_result * registry :=
  if negb (validate_admin_key ADMIN_API_KEY s state_api_key) then (AdminError 403, s)
  else
    match body with
    | Some (JObj fs) =>
    match jget "is_active" (JObj fs) with
    | None | Some JNull => (AdminError 400, s)
    | Some v =>
        match find_key_by_name order (api_keys s) key_name with
        | None => (AdminError 404, s)
        | Some target_key =>
            if String.eqb target_key "" then (AdminError 404, s)
            else
              let '(success, s') :=
                if json_truthy v then activate_key s target_key
                else deactivate_key s target_key in
              if success then (AdminOk None, s') else (AdminError 500, s')
        end
    end
    | _ => (AdminError 500, s)
    end.

(** The per-key dict [list_api_keys] reports (the key itself is left out). *)
Record key_summary := mk_summary {
  sm_description : string;
  sm_created_at : Z;
  sm_usage_count : Z;
  sm_last_used : Z;
  sm_is_active : bool
}.

Definition summary_of (info : key_record) : key_summary :=
  mk_summary (description info) (created_at info) (usage_count info)
             (last_used info) (is_active info).

(** [keys_summary] of [list_api_keys]: filled in the order [items] of
    [api_key_manager.api_keys.items()], keyed by [info['name']]. *)
Definition keys_summary (items : list (string * key_record)) : gmap string key_summary :=
  fold_left (λ acc kv, <[name kv.2 := summary_of kv.2]> acc) items ∅.

(** [list_api_keys]: [None] is the [HTTPException(403)]; otherwise the
    ["stats"] and ["keys"] of the answer. *)
Definition list_api_keys_route (ADMIN_API_KEY : option string) (s : registry)
    (state_api_key : option string) (items : list (string * key_record)) (now : Z)
    : option (key_stats * gmap string key_summary) :=
  if negb (validate_admin_key ADMIN_API_KEY s state_api_key) then None
  else Some (get_stats s now, keys_summary items).

(** [reload_api_keys]: [api_key_manager.load_keys()] behind the admin
    check, answering 500 when it returns [False]. *)
Definition reload_api_keys_route (ADMIN_API_KEY : option string) (s : registry)
    (state_api_key : option string) (st : store) (now : Z) : admin_result * registry :=
  if negb (validate_admin_key ADMIN_API_KEY s state_api_key) then (AdminError 403, s)
  else
    let '(success, s') := load_keys s st now in
    if success then (AdminOk None, s') else (AdminError 500, s').

(** No two records share a name. *)
Definition names_unique (tbl : gmap string key_record) : Prop :=
  ∀ k1 k2 r1 r2, tbl !! k1 = Some r1 → tbl !! k2 = Some r2 →
    name r1 = name r2 → k1 = k2.

(** A line that holds neither ['\n'] nor ['\r']. *)
Definition no_newline (x : string) : bool :=
  negb (str_mem (ascii_of_nat 10) x) && negb (str_mem (ascii_of_nat 13) x).

(** A record [save_keys] writes as one line that [load_keys] parses back
    field by field: no [':'] in the key or the name, a trimmed key with the
    ["sk-"] prefix, a name that does not turn the line into a comment, and
    no line break in any field. *)
Definition save_clean (k : string) (r : key_record) : Prop :=
  str_mem ":" k = false ∧ str_mem ":" (name r) = false ∧
  strip k = k ∧ startswith k "sk-" = true ∧
  startswith (lstrip (name r)) "#" = false ∧
  no_newline k = true ∧ no_newline (name r) = true ∧
  no_newline (description r) = true.

(** The record [load_keys] builds from the line [save_keys] wrote for [r]. *)
Definition reload_record (now : Z) (r : key_record) : key_record :=
  fresh_record (strip (name r)) (strip (description r ++ " " ++ save_status r)) now.

(** Every key of the table carries the ["sk-"] prefix. *)
Definition keys_prefixed (tbl : gmap string key_record) : Prop :=
  ∀ k r, tbl !! k = Some r → startswith k "sk-" = true.

(** The other two line terminators [open] in text mode recognises:
    ['\r'] and ["\r\n"]. *)
Definition cr : string := String (ascii_of_nat 13) EmptyString.
Definition crlf : string := String (ascii_of_nat 13) nl.

(** Whether a string starts with ['\n']. *)
Definition starts_lf (s : string) : bool :=
  match s with String c _ => Ascii.eqb c (ascii_of_nat 10) | EmptyString => false end.

Lemma insert_parsed_ok acc k r :
  parsed_ok acc → usage_count r = 0%Z → last_used r = 0%Z → is_active r = true →
  parsed_ok (<[k := r]> acc.1, {[k]} ∪ acc.2).
Proof.
  intros [Hset Hfresh] Hu Hl Ha. split; simpl.
  - intros k'. rewrite elem_of_union, elem_of_singleton.
    destruct (decide (k' = k)) as [->|Hne].
    + rewrite lookup_insert_eq. split; [by eauto | by left].
    + rewrite lookup_insert_ne by congruence. rewrite <- Hset.
      split; [intros [?|?]; [congruence|done] | by right].
  - intros k' r'. destruct (decide (k' = k)) as [->|Hne].
    + rewrite lookup_insert_eq. intros [= <-]. auto.
    + rewrite lookup_insert_ne by congruence. apply Hfresh.
Qed.

Lemma load_line_ok now acc l :
  parsed_ok acc → parsed_ok (load_line now acc l).
Proof.
  intros Hacc. unfold load_line.
  repeat case_match; try exact Hacc; by apply insert_parsed_ok.
Qed.

Lemma parse_lines_from_ok now ls acc :
  parsed_ok acc → parsed_ok (fold_left (load_line now) ls acc).
Proof.
  revert acc. induction ls as [|l ls IH]; intros acc Hacc; simpl.
  - exact Hacc.
  - apply IH, load_line_ok, Hacc.
Qed.

Lemma parse_lines_ok now ls : parsed_ok (parse_lines now ls).
Proof.
  apply parse_lines_from_ok. split; simpl.
  - intros k. rewrite lookup_empty. split; [set_solver | intros [? ?]; done].
  - intros k r. rewrite lookup_empty. done.
Qed.

Lemma parsed_index_ok tbl lrt :
  parsed_ok tbl → index_ok (mk_registry tbl.1 tbl.2 lrt).
Proof.
  intros [Hset Hfresh] k; simpl. rewrite Hset. split.
  - intros [r Hr]. exists r. split; [done | apply (Hfresh k r Hr)].
  - intros [r [Hr _]]. by exists r.
Qed.

Lemma load_keys_index_ok s st now :
  index_ok s → index_ok (load_keys s st now).2.
Proof.
  intros Hs. destruct st as [|m ls []]; simpl;
    try apply parsed_index_ok, parse_lines_ok; exact Hs.
Qed.

Lemma validate_locked_index_ok s k now :
  index_ok s → index_ok (validate_locked s k now).2.
Proof.
  intros Hs. unfold validate_locked.
  destruct (api_keys s !! k) as [r|] eqn:Hr; [|exact Hs].
  destruct (is_active r) eqn:Ha; [|exact Hs].
  intros k'; simpl. rewrite (Hs k').
  destruct (decide (k' = k)) as [->|Hne].
  - rewrite lookup_insert_eq. split; intros _; [by eexists | by exists r].
  - by rewrite lookup_insert_ne by congruence.
Qed.

Lemma validate_key_index_ok s st raw now :
  index_ok s → index_ok (validate_key s st raw now).2.
Proof.
  intros Hs. unfold validate_key.
  destruct (String.eqb raw "") ; [exact Hs|].
  apply validate_locked_index_ok.
  destruct (should_reload s st); [apply load_keys_index_ok|]; exact Hs.
Qed.

Lemma apply_op_index_ok s op : index_ok s → index_ok (apply_op s op).
Proof.
  intros Hs. destruct op as [st now|st raw now|n d t now|k|k]; simpl.
  - by apply load_keys_index_ok.
  - by apply validate_key_index_ok.
  - intros k'; simpl. rewrite elem_of_union, elem_of_singleton, (Hs k').
    destruct (decide (k' = "sk-" ++ t)) as [->|Hne].
    + rewrite lookup_insert_eq. split; [by eauto | by left].
    + rewrite lookup_insert_ne by congruence. split; [intros [?|?]; done | by right].
  - unfold activate_key. destruct (api_keys s !! k) as [r|] eqn:Hr; [|exact Hs].
    intros k'; simpl. rewrite elem_of_union, elem_of_singleton, (Hs k').
    destruct (decide (k' = k)) as [->|Hne].
    + rewrite lookup_insert_eq. split; [by eauto | by left].
    + rewrite lookup_insert_ne by congruence. split; [intros [?|?]; done | by right].
  - unfold deactivate_key. destruct (api_keys s !! k) as [r|] eqn:Hr; [|exact Hs].
    intros k'; simpl. rewrite elem_of_difference, elem_of_singleton, (Hs k').
    destruct (decide (k' = k)) as [->|Hne].
    + rewrite lookup_insert_eq. split; [intros [_ []]; done | intros [? [[= <-] ?]]; done].
    + rewrite lookup_insert_ne by congruence. split; [intros [? _]; done | done].
Qed.

Lemma run_ops_index_ok s ops : index_ok s → index_ok (run_ops s ops).
Proof.
  revert s. induction ops as [|op ops IH]; intros s Hs; simpl; [exact Hs|].
  apply IH, apply_op_index_ok, Hs.
Qed.

Lemma init_index_ok : index_ok init_registry.
Proof. intros k; simpl. rewrite lookup_empty. split; [set_solver | intros [? [? _]]; done]. Qed.

(** Effect of the locked section of [validate_key] on one lookup. *)
Lemma validate_locked_lookup s k now k' :
  api_keys (validate_locked s k now).2 !! k' =
  if decide (k' = k) then
    match api_keys s !! k with
    | Some r => Some (if is_active r
                      then mk_record (name r) (description r) (created_at r)
                             (usage_count r + 1) now (is_active r)
                      else r)
    | None => None
    end
  else api_keys s !! k'.
Proof.
  unfold validate_locked.
  destruct (decide (k' = k)) as [->|Hne];
    destruct (api_keys s !! k) as [r|] eqn:Hr; try done;
    destruct (is_active r) eqn:Ha; simpl; try done.
  - by rewrite lookup_insert_eq.
  - by rewrite lookup_insert_ne by congruence.
Qed.

Lemma validate_locked_other s k now :
  (validate_locked s k now).2 =
  mk_registry (api_keys (validate_locked s k now).2) (active_keys s) (last_reload_time s).
Proof.
  unfold validate_locked. destruct s as [t a l]; simpl.
  destruct (t !! k) as [r|]; [destruct (is_active r)|]; reflexivity.
Qed.

(* ------------------------------------------------------------------ *)
(** ** Claims about the registry *)

Open Scope Z_scope.

(** C6: after every registry operation the active-set index equals the set
    of keys whose record is active; activating a known key adds it to the
    set and deactivating removes it; both return false on an unknown key
    and leave the registry unchanged. *)
Theorem active_index_invariant :
  (∀ ops, index_ok (run_ops init_registry ops)) ∧
  (∀ s op, index_ok s → index_ok (apply_op s op)) ∧
  (∀ s k r, api_keys s !! k = Some r →
     (activate_key s k).1 = true ∧ k ∈ active_keys (activate_key s k).2 ∧
     (deactivate_key s k).1 = true ∧ k ∉ active_keys (deactivate_key s k).2) ∧
  (∀ s k, api_keys s !! k = None →
     activate_key s k = (false, s) ∧ deactivate_key s k = (false, s)).
Proof.
  split; [|split; [|split]].
  - intros ops. apply run_ops_index_ok, init_index_ok.
  - apply apply_op_index_ok.
  - intros s k r Hr. unfold activate_key, deactivate_key. rewrite Hr; simpl.
    split; [done|split; [set_solver|split; [done|set_solver]]].
  - intros s k Hr. unfold activate_key, deactivate_key. by rewrite Hr.
Qed.

Lemma active_index_invariant_witness :
  index_ok (apply_op init_registry (OpCreate "admin_key" "" "a" 0)) ∧
  (activate_key (create_key init_registry "admin_key" "" "a" 0).2 "sk-a").1 = true ∧
  activate_key init_registry "sk-a" = (false, init_registry).
Proof.
  destruct active_index_invariant as (_ & H2 & H3 & H4).
  split; [apply H2, init_index_ok|split].
  - apply (H3 _ "sk-a" (fresh_record "admin_key" "" 0)). reflexivity.
  - apply (H4 init_registry "sk-a"). reflexivity.
Defined.

(** C10: after every successful [load_keys] every record has usage_count 0,
    last_used 0 and is active.  So a reload triggered inside [validate_key]
    (non-empty key, store newer than [last_reload_time], read succeeds)
    leaves exactly the keys of the store's lines, all active, and every
    record other than the validated key with zero usage. *)
Theorem load_resets_usage_and_activity :
  (∀ s st now s', load_keys s st now = (true, s') →
     ∀ k r, api_keys s' !! k = Some r →
       usage_count r = 0%Z ∧ last_used r = 0%Z ∧ is_active r = true) ∧
  (∀ s m ls raw now, raw ≠ "" → (last_reload_time s < m)%Z →
     let s' := (validate_key s (StorePresent m ls false) raw now).2 in
     (∀ k, is_Some (api_keys s' !! k) ↔ is_Some ((parse_lines now ls).1 !! k)) ∧
     (∀ k r, api_keys s' !! k = Some r →
        is_active r = true ∧
        (k ≠ strip raw → usage_count r = 0%Z ∧ last_used r = 0%Z))).
Proof.
  split.
  - intros s st now s' Hl k r Hk.
    destruct st as [|m ls []]; simpl in Hl; try discriminate.
    injection Hl as <-. simpl in Hk.
    exact (proj2 (parse_lines_ok now ls) k r Hk).
  - intros s m ls raw now Hraw Hm s'.
    destruct (parse_lines_ok now ls) as [_ Hfresh].
    assert (Hs' : s' = (validate_locked
               (mk_registry (parse_lines now ls).1 (parse_lines now ls).2 now)
               (strip raw) now).2).
    { subst s'. unfold validate_key.
      destruct (String.eqb_spec raw "") as [E|_]; [contradiction|].
      unfold should_reload. simpl. by rewrite (proj2 (Z.ltb_lt _ _) Hm). }
    rewrite Hs'. split.
    + intros k. rewrite validate_locked_lookup; simpl.
      destruct (decide (k = strip raw)) as [->|]; [|done].
      destruct ((parse_lines now ls).1 !! strip raw); [|done].
      split; intros _; by eexists.
    + intros k r. rewrite validate_locked_lookup; simpl.
      destruct (decide (k = strip raw)) as [->|Hne].
      * destruct ((parse_lines now ls).1 !! strip raw) as [r0|] eqn:E; [|done].
        destruct (Hfresh _ _ E) as (_ & _ & Ha). rewrite Ha.
        intros [= <-]. simpl. split; [done|]. intros []; done.
      * intros E. destruct (Hfresh _ _ E) as (Hu & Hl & Ha). auto.
Qed.

Lemma load_resets_usage_and_activity_witness :
  (∀ k r, api_keys (load_keys init_registry (StorePresent 1 ["a:sk-a:"] false) 2).2 !! k = Some r →
     usage_count r = 0%Z ∧ last_used r = 0%Z ∧ is_active r = true) ∧
  (let s' := (validate_key init_registry (StorePresent 1 ["a:sk-a:"] false) "sk-b" 2).2 in
   (∀ k, is_Some (api_keys s' !! k) ↔ is_Some ((parse_lines 2 ["a:sk-a:"]).1 !! k)) ∧
   (∀ k r, api_keys s' !! k = Some r →
      is_active r = true ∧ (k ≠ strip "sk-b" → usage_count r = 0%Z ∧ last_used r = 0%Z))).
Proof.
  destruct load_resets_usage_and_activity as [H1 H2]. split.
  - apply (H1 init_registry (StorePresent 1 ["a:sk-a:"] false) 2). reflexivity.
  - apply (H2 init_registry 1 ["a:sk-a:"] "sk-b" 2); [discriminate | simpl; lia].
Defined.

(** A registry loaded at time 2 from a store holding one key [sk-a]. *)
Definition reg_a : registry :=
  (load_keys init_registry (StorePresent 1 ["a:sk-a:"] false) 2).2.

(** C3 (as stated, refuted): a store that exists but whose reading raises
    (here the [open] itself) makes [load_keys] fail after it has already
    cleared the table, so the registry is not left as it was. *)
Lemma load_read_error_mutates :
  (load_keys reg_a (StorePresent 5 [] true) 9).1 = false ∧
  api_keys reg_a !! "sk-a" = Some (fresh_record "a" "" 2) ∧
  api_keys (load_keys reg_a (StorePresent 5 [] true) 9).2 !! "sk-a" = None.
Proof. split; [reflexivity | split; reflexivity]. Qed.

(** C3 (amended): a failing [load_keys] never changes [last_reload_time];
    a missing store leaves the whole registry unchanged; a store whose
    reading raises leaves the table and the active set holding exactly the
    entries parsed from the lines read before the error (empty when the
    [open] fails), consistent with each other. *)
Theorem load_failure_effect :
  (∀ s now, load_keys s StoreMissing now = (false, s)) ∧
  (∀ s m ls now,
     load_keys s (StorePresent m ls true) now =
       (false, mk_registry (parse_lines now ls).1 (parse_lines now ls).2
                           (last_reload_time s)) ∧
     index_ok (load_keys s (StorePresent m ls true) now).2) ∧
  (∀ s st now s', load_keys s st now = (false, s') →
     last_reload_time s' = last_reload_time s).
Proof.
  split; [|split].
  - reflexivity.
  - intros s m ls now. split; [reflexivity|].
    apply parsed_index_ok, parse_lines_ok.
  - intros s st now s' H.
    destruct st as [|m ls []]; simpl in H; try discriminate; injection H as <-; done.
Qed.

Lemma load_failure_effect_witness :
  last_reload_time (load_keys reg_a (StorePresent 5 [] true) 9).2 = last_reload_time reg_a.
Proof.
  apply ((proj2 (proj2 load_failure_effect)) reg_a (StorePresent 5 [] true) 9).
  reflexivity.
Defined.

(** [reg_a] after one successful validation of [sk-a] at time 3 (the
    store's mtime 1 is not newer than the load time 2: no reload). *)
Definition reg_a_used : registry :=
  (validate_key reg_a (StorePresent 1 ["a:sk-a:"] false) "sk-a" 3).2.

(** C1 (as stated, refuted): an unknown key validated after the store was
    touched returns false but resets the usage of [sk-a] from 1 to 0,
    through the reload [validate_key] performs first. *)
Lemma validate_unknown_resets_usage :
  option_map usage_count (api_keys reg_a_used !! "sk-a") = Some 1 ∧
  (validate_key reg_a_used (StorePresent 10 ["a:sk-a:"] false) "sk-zz" 11).1 = false ∧
  option_map usage_count
    (api_keys (validate_key reg_a_used (StorePresent 10 ["a:sk-a:"] false) "sk-zz" 11).2
       !! "sk-a") = Some 0.
Proof. split; [reflexivity | split; reflexivity]. Qed.

(** C1 (amended): the empty string is refused with no effect.  Any other
    raw key is trimmed, the reload check runs (a full [load_keys] when the
    store is newer than [last_reload_time]), and then, relative to the
    registry [s1] this check leaves: the result is true exactly when the
    trimmed key is present and active; in that case its usage_count grows
    by one, its last_used becomes [now] and nothing else changes; otherwise
    the registry is [s1].  In particular, when no reload is due, a false
    result leaves the registry unchanged. *)
Theorem validate_key_effect :
  (∀ s st now, validate_key s st "" now = (false, s)) ∧
  (∀ s st raw now, raw ≠ "" →
     let s1 := if should_reload s st then (load_keys s st now).2 else s in
     let k := strip raw in
     let res := validate_key s st raw now in
     (res.1 = true ↔ ∃ r, api_keys s1 !! k = Some r ∧ is_active r = true) ∧
     (∀ r, api_keys s1 !! k = Some r → is_active r = true →
        api_keys res.2 !! k =
          Some (mk_record (name r) (description r) (created_at r)
                  (usage_count r + 1) now true) ∧
        (∀ k', k' ≠ k → api_keys res.2 !! k' = api_keys s1 !! k') ∧
        active_keys res.2 = active_keys s1 ∧
        last_reload_time res.2 = last_reload_time s1) ∧
     (res.1 = false → res.2 = s1)) ∧
  (∀ s st raw now, should_reload s st = false →
     (validate_key s st raw now).1 = false → (validate_key s st raw now).2 = s).
Proof.
  split; [|split].
  - reflexivity.
  - intros s st raw now Hraw s1 k res.
    assert (Hres : res = validate_locked s1 k now).
    { subst res. unfold validate_key.
      by destruct (String.eqb_spec raw "") as [E|_]. }
    rewrite Hres. unfold validate_locked.
    destruct (api_keys s1 !! k) as [r|] eqn:Hr.
    + destruct (is_active r) eqn:Ha; simpl.
      * split; [split; [by eauto | done]|split].
        -- intros r' [= <-] _. split; [apply lookup_insert_eq|].
           split; [|done]. intros k' Hne. by rewrite lookup_insert_ne by congruence.
        -- discriminate.
      * split; [split; [discriminate | intros (r' & [= <-] & E); congruence]|].
        split; [|done]. intros r' [= <-]. congruence.
    + simpl. split; [split; [discriminate | intros (? & [=] & _)]|].
      split; [|done]. intros r' [=].
  - intros s st raw now Hno. unfold validate_key. rewrite Hno.
    destruct (String.eqb raw ""); [done|].
    unfold validate_locked.
    destruct (api_keys s !! strip raw) as [r|]; [destruct (is_active r)|]; done.
Qed.

Lemma validate_key_effect_witness :
  ((validate_key reg_a (StorePresent 1 ["a:sk-a:"] false) "sk-a" 3).1 = true ↔
     ∃ r, api_keys reg_a !! "sk-a" = Some r ∧ is_active r = true) ∧
  (validate_key reg_a StoreMissing "sk-b" 4).2 = reg_a.
Proof.
  destruct validate_key_effect as (_ & H2 & H3). split.
  - exact (proj1 (H2 reg_a (StorePresent 1 ["a:sk-a:"] false) "sk-a" 3
                    ltac:(discriminate))).
  - apply (H3 reg_a StoreMissing "sk-b" 4); reflexivity.
Defined.

(** C9 (as stated, refuted): with the store newer than [last_reload_time]
    (mtime 10 > 2), validating the empty string returns false before the
    reload check, so no reload happens although a reload would change the
    registry. *)
Lemma validate_empty_skips_reload :
  should_reload reg_a (StorePresent 10 ["b:sk-b:"] false) = true ∧
  validate_key reg_a (StorePresent 10 ["b:sk-b:"] false) "" 11 = (false, reg_a) ∧
  api_keys (load_keys reg_a (StorePresent 10 ["b:sk-b:"] false) 11).2 !! "sk-a" = None ∧
  api_keys reg_a !! "sk-a" = Some (fresh_record "a" "" 2).
Proof. repeat split; reflexivity. Qed.

(** C9 (amended): the empty string returns false before the reload check.
    For any other raw key, [validate_key] runs its locked section on the
    registry after a full [load_keys] exactly when [should_reload] holds,
    i.e. when the store exists and its mtime strictly exceeds
    [last_reload_time]; a missing store never triggers it, and after a
    successful load at time [t] of a store with mtime at most [t], the same
    unchanged store does not trigger it. *)
Theorem validate_reload_condition :
  (∀ s st now, validate_key s st "" now = (false, s)) ∧
  (∀ s st raw now, raw ≠ "" →
     validate_key s st raw now =
       validate_locked (if should_reload s st then (load_keys s st now).2 else s)
                       (strip raw) now) ∧
  (∀ s st, should_reload s st = true ↔
     ∃ m ls e, st = StorePresent m ls e ∧ last_reload_time s < m) ∧
  (∀ s, should_reload s StoreMissing = false) ∧
  (∀ s m ls t s', m ≤ t → load_keys s (StorePresent m ls false) t = (true, s') →
     should_reload s' (StorePresent m ls false) = false).
Proof.
  split; [|split; [|split; [|split]]].
  - reflexivity.
  - intros s st raw now Hraw. unfold validate_key.
    by destruct (String.eqb_spec raw "").
  - intros s st. destruct st as [|m ls e]; simpl.
    + split; [discriminate | intros (? & ? & ? & [=] & _)].
    + rewrite Z.ltb_lt. split.
      * intros H. by exists m, ls, e.
      * intros (m' & ls' & e' & [= -> -> ->] & H). exact H.
  - reflexivity.
  - intros s m ls t s' Hm Hl. simpl in Hl. injection Hl as <-. simpl.
    apply Z.ltb_ge. exact Hm.
Qed.

Lemma validate_reload_condition_witness :
  validate_key reg_a StoreMissing "sk-a" 5 =
    validate_locked reg_a (strip "sk-a") 5 ∧
  should_reload (load_keys reg_a (StorePresent 10 ["a:sk-a:"] false) 12).2
                (StorePresent 10 ["a:sk-a:"] false) = false.
Proof.
  destruct validate_reload_condition as (_ & H2 & _ & _ & H5). split.
  - apply (H2 reg_a StoreMissing "sk-a" 5). discriminate.
  - apply (H5 reg_a 10 ["a:sk-a:"] 12); [lia | reflexivity].
Defined.

(* ------------------------------------------------------------------ *)
(** ** Claims about the authentication gate and the admin check *)

Lemma strip_empty : strip "" = "".
Proof. reflexivity. Qed.

(** C4: outside the excluded paths ["/"] and ["/health"], with
    authentication enabled, a request is admitted exactly when its
    Authorization header is present, starts (after trimming) with
    ["Bearer "], and the trimmed remainder passes [validate_key]; a missing
    header or another scheme is rejected with 401 before the route handler
    runs, with the registry untouched.  With [DISABLE_AUTH] set, every such
    request is admitted with the sentinel context and the registry is not
    consulted; the excluded paths are always passed through. *)
Theorem auth_gate_admission :
  (∀ s st now path hdr, path ∉ app_excluded_paths →
     let res := dispatch app_excluded_paths false s st now path hdr in
     (gate_admitted res.1 = true ↔
        ∃ h, hdr = Some h ∧ startswith (strip h) "Bearer " = true ∧
             (validate_key s st (strip (drop_str 7 (strip h))) now).1 = true) ∧
     ((hdr = None ∨ ∃ h, hdr = Some h ∧ startswith (strip h) "Bearer " = false) →
        ∃ d, res = (GateReject 401 d, s))) ∧
  (∀ s st now path hdr, path ∉ app_excluded_paths →
     dispatch app_excluded_paths true s st now path hdr = (GateAdmit CtxDisabled, s)) ∧
  (∀ dis s st now path hdr, path ∈ app_excluded_paths →
     dispatch app_excluded_paths dis s st now path hdr = (GateAdmit CtxUntouched, s)).
Proof.
  split; [|split].
  - intros s st now path hdr Hp res.
    assert (Hres : res =
      match extract_api_key_from_request hdr with
      | Some k =>
          if String.eqb k "" then (GateReject 401 "missing Authorization header", s)
          else let (ok, s') := validate_key s st k now in
               if ok then (GateAdmit (CtxKey k (get_key_info s' k)), s')
               else (GateReject 401 "invalid API key", s')
      | None => (GateReject 401 "missing Authorization header", s)
      end).
    { subst res. unfold dispatch. by rewrite bool_decide_eq_false_2. }
    rewrite Hres. clear Hres res.
    destruct hdr as [h|]; unfold extract_api_key_from_request; cbv zeta.
    + destruct (String.eqb_spec h "") as [->|Hh].
      * split.
        -- split; [discriminate|]. intros (h' & [= <-] & Hb & _).
           rewrite strip_empty in Hb. discriminate.
        -- intros _. by eexists.
      * destruct (startswith (strip h) "Bearer ") eqn:Hb.
        -- split; [|intros [[=]|(h' & [= <-] & Hb')]; congruence].
           destruct (String.eqb_spec (strip (drop_str 7 (strip h))) "") as [E|E].
           ++ split; [discriminate|].
              intros (h' & [= <-] & _ & Hv). rewrite E in Hv. discriminate.
           ++ destruct (validate_key s st (strip (drop_str 7 (strip h))) now)
                as [[] s'] eqn:Hv; simpl.
              ** split; [intros _; exists h; by rewrite Hv | done].
              ** split; [discriminate|].
                 intros (h' & [= <-] & _ & Hv'). by rewrite Hv in Hv'.
        -- split.
           ++ split; [discriminate|]. intros (h' & [= <-] & Hb' & _). congruence.
           ++ intros _. by eexists.
    + split.
      * split; [discriminate|]. intros (h & [=] & _).
      * intros _. by eexists.
  - intros s st now path hdr Hp. unfold dispatch.
    by rewrite bool_decide_eq_false_2.
  - intros dis s st now path hdr Hp. unfold dispatch.
    by rewrite bool_decide_eq_true_2.
Qed.

Lemma auth_gate_admission_witness :
  gate_admitted (dispatch app_excluded_paths false reg_a StoreMissing 3
                   "/v1/models" (Some "Bearer sk-a")).1 = true ∧
  dispatch app_excluded_paths true reg_a StoreMissing 3 "/v1/models" None =
    (GateAdmit CtxDisabled, reg_a) ∧
  dispatch app_excluded_paths false reg_a StoreMissing 3 "/health" None =
    (GateAdmit CtxUntouched, reg_a).
Proof.
  destruct auth_gate_admission as (H1 & H2 & H3). split; [|split].
  - apply (proj1 (H1 reg_a StoreMissing 3 "/v1/models" (Some "Bearer sk-a")
                    ltac:(unfold app_excluded_paths; set_solver))).
    exists "Bearer sk-a". split; [reflexivity | split; reflexivity].
  - apply H2. unfold app_excluded_paths. set_solver.
  - apply H3. unfold app_excluded_paths. set_solver.
Defined.

Lemma if_true_or (b c : bool) : (if b then true else c) = true ↔ b = true ∨ c = true.
Proof. destruct b, c; intuition congruence. Qed.

Lemma admin_env_path (A : option string) k : k ≠ "" →
  (match A with Some a => negb (String.eqb a "") && String.eqb k a | None => false end) = true
  ↔ A = Some k.
Proof.
  intros Hk. destruct A as [a|]; [|split; [discriminate | intros [=]]].
  rewrite andb_true_iff, negb_true_iff, String.eqb_neq, String.eqb_eq.
  split; [intros [_ ->]; reflexivity | intros [= ->]; done].
Qed.

Lemma admin_registry_path s k :
  (match get_key_info s k with
   | Some info => String.eqb (name info) "admin_key" && is_active info
   | None => false end) = true
  ↔ ∃ r, get_key_info s k = Some r ∧ name r = "admin_key" ∧ is_active r = true.
Proof.
  destruct (get_key_info s k) as [info|].
  - rewrite andb_true_iff, String.eqb_eq.
    split; [intros [? ?]; by exists info | intros (r & [= <-] & ? & ?); done].
  - split; [discriminate | intros (? & [=] & _)].
Qed.

(** C5: for a non-empty secret, admin access is granted exactly when the
    secret resolves (through [get_key_info]) to an active record named
    ["admin_key"], or equals the configured [ADMIN_API_KEY]; the configured
    secret is granted whatever the registry holds; an absent or empty
    secret is never granted. *)
Theorem admin_access :
  (∀ ADMIN_API_KEY s k, k ≠ "" →
     validate_admin_key ADMIN_API_KEY s (Some k) = true ↔
       (∃ r, get_key_info s k = Some r ∧ name r = "admin_key" ∧ is_active r = true) ∨
       ADMIN_API_KEY = Some k) ∧
  (∀ s k, k ≠ "" → validate_admin_key (Some k) s (Some k) = true) ∧
  (∀ ADMIN_API_KEY s,
     validate_admin_key ADMIN_API_KEY s None = false ∧
     validate_admin_key ADMIN_API_KEY s (Some "") = false).
Proof.
  split; [|split].
  - intros A s k Hk. unfold validate_admin_key.
    destruct (String.eqb_spec k "") as [|_]; [contradiction|]. cbv zeta.
    rewrite if_true_or, admin_env_path by exact Hk.
    apply or_iff_compat_r. apply admin_registry_path.
  - intros s k Hk. unfold validate_admin_key.
    destruct (String.eqb_spec k "") as [|_]; [contradiction|]. cbv zeta.
    rewrite if_true_or. right. by rewrite String.eqb_refl.
  - intros A s. split; reflexivity.
Qed.

Lemma admin_access_witness :
  validate_admin_key (Some "sk-break-glass") init_registry (Some "sk-break-glass") = true ∧
  (validate_admin_key None reg_a (Some "sk-a") = true ↔
     (∃ r, get_key_info reg_a "sk-a" = Some r ∧ name r = "admin_key" ∧ is_active r = true) ∨
     None = Some "sk-a").
Proof.
  destruct admin_access as (H1 & H2 & _). split.
  - apply H2. discriminate.
  - apply H1. discriminate.
Defined.

(* ------------------------------------------------------------------ *)
(** ** Claims about the chat-completion route *)

Lemma stream_disconnect_from n chunks fin (disc : nat → bool) i :
  (i < List.length chunks)%nat → disc (n + i)%nat = true →
  (∀ j, (j < i)%nat → disc (n + j)%nat = false) →
  stream_with_disconnect_check n chunks fin disc =
    (map SseRaw (firstn i chunks), GenDone).
Proof.
  revert n i. induction chunks as [|c cs IH]; intros n i Hi Hd Hbefore;
    simpl in Hi; [lia|].
  destruct i as [|i]; simpl.
  - rewrite Nat.add_0_r in Hd. by rewrite Hd.
  - pose proof (Hbefore 0%nat ltac:(lia)) as H0. rewrite Nat.add_0_r in H0.
    rewrite H0, (IH (S n) i); [done | lia | |].
    + replace (S n + i)%nat with (n + S i)%nat by lia. exact Hd.
    + intros j Hj. replace (S n + j)%nat with (n + S j)%nat by lia.
      apply Hbefore. lia.
Qed.

(** C7: once [request.is_disconnected()] is first sampled true, at the
    check before chunk [i], the generator has yielded exactly the chunks
    before [i] and then ends normally, whatever the upstream would have
    done later; the streamed response therefore completes without any
    error. *)
Theorem disconnect_stops_silently :
  ∀ (chunks : list string) fin (disc : nat → bool) i,
    (i < List.length chunks)%nat → disc i = true →
    (∀ j, (j < i)%nat → disc j = false) →
    stream_with_disconnect_check 0 chunks fin disc =
      (map SseRaw (firstn i chunks), GenDone) ∧
    streaming_response_wire (stream_with_disconnect_check 0 chunks fin disc) =
      mk_wire 200 (map SseRaw (firstn i chunks)) true.
Proof.
  intros chunks fin disc i Hi Hd Hb.
  assert (H : stream_with_disconnect_check 0 chunks fin disc =
                (map SseRaw (firstn i chunks), GenDone)).
  { apply stream_disconnect_from; [exact Hi | exact Hd | exact Hb]. }
  rewrite H. split; reflexivity.
Qed.

Lemma disconnect_stops_silently_witness :
  stream_with_disconnect_check 0 ["a"; "b"; "c"] (Some (ExcOther "x"))
    (fun j => (j =? 1)%nat) = ([SseRaw "a"], GenDone) ∧
  streaming_response_wire (stream_with_disconnect_check 0 ["a"; "b"; "c"]
    (Some (ExcOther "x")) (fun j => (j =? 1)%nat)) = mk_wire 200 [SseRaw "a"] true.
Proof.
  apply (disconnect_stops_silently ["a"; "b"; "c"] (Some (ExcOther "x"))
           (fun j => (j =? 1)%nat) 1%nat).
  - simpl. lia.
  - reflexivity.
  - intros j Hj. destruct j as [|j]; [reflexivity | lia].
Defined.

(** A streamed request with one user message. *)
Definition stream_body : json :=
  JObj [("model", JStr "gemini-1.5-pro");
        ("messages", JArr [JObj [("role", JStr "user"); ("content", JStr "hi")]]);
        ("stream", JBool true)].

(** An upstream whose [stream_chat] raises [e] before its first chunk. *)
Definition failing_upstream (e : upstream_exc) : upstream :=
  mk_upstream [] (Some e) (fun _ => false) (inr e).

(** C2 (evaluation at the failing input): the generator raises
    [HTTPException(505)] for [EmptyResponseError] and [HTTPException(500)]
    for [APIError], but both are raised inside the body of a
    [StreamingResponse] whose status line 200 is already committed; through
    the two middleware layers of [create_app] the client gets the same
    thing in both cases: status 200 and an empty body that is terminated
    normally.  Neither 500 nor 505 reaches the wire. *)
Theorem stream_failure_status_not_on_wire :
  chat_completions (Some stream_body) "u" 0 (failing_upstream (ExcEmptyResponse "empty")) =
    RespStream ([], GenRaiseHTTP 505 "empty") ∧
  chat_completions (Some stream_body) "u" 0 (failing_upstream (ExcAPIError "empty")) =
    RespStream ([], GenRaiseHTTP 500 "empty") ∧
  streaming_response_wire ([], GenRaiseHTTP 505 "empty") = mk_wire 200 [] true ∧
  streaming_response_wire ([], GenRaiseHTTP 500 "empty") = mk_wire 200 [] true.
Proof. repeat split; reflexivity. Qed.

(** The choice the empty completion carries. *)
Definition empty_choice : json :=
  JObj [("index", JNum 0);
        ("message", JObj [("role", JStr "assistant"); ("content", JStr "")]);
        ("finish_reason", JStr "stop")].

(** C8: for a request body that is a JSON object whose message list is
    empty (missing or falsy), the result does not depend on anything the
    upstream would do; without streaming it is
    the completion object with id ["chatcmpl-proxy-empty-" ++ uuid], the
    echoed model, a usage block of zeros and one choice with an empty
    assistant message and finish_reason "stop"; with streaming it is a
    stream of exactly one data event (a chunk with finish_reason "stop")
    followed by the [DONE] event, ending normally. *)
Theorem empty_messages_synthesized :
  ∀ fs uuid now up up',
    let body := JObj fs in
    json_truthy (jget_default "messages" (JArr []) body) = false →
    let model := jget_default "model" (JStr "gemini-1.5-pro") body in
    chat_completions (Some body) uuid now up = chat_completions (Some body) uuid now up' ∧
    (json_truthy (jget_default "stream" (JBool false) body) = false →
       ∃ j, chat_completions (Some body) uuid now up = RespJSON j ∧
         jget "id" j = Some (JStr ("chatcmpl-proxy-empty-" ++ uuid)) ∧
         jget "model" j = Some model ∧
         jget "usage" j = Some (JObj [("prompt_tokens", JNum 0);
                                      ("completion_tokens", JNum 0);
                                      ("total_tokens", JNum 0)]) ∧
         jget "choices" j = Some (JArr [empty_choice])) ∧
    (json_truthy (jget_default "stream" (JBool false) body) = true →
       ∃ c, chat_completions (Some body) uuid now up =
              RespStream ([SseData c; SseDone], GenDone) ∧
         jget "id" c = Some (JStr ("chatcmpl-proxy-empty-" ++ uuid)) ∧
         jget "model" c = Some model ∧
         jget "choices" c =
           Some (JArr [JObj [("index", JNum 0);
                             ("delta", JObj [("role", JStr "assistant");
                                             ("content", JStr "")]);
                             ("finish_reason", JStr "stop")]])).
Proof.
  intros fs uuid now up up' body Hm model.
  unfold chat_completions. subst body. cbv beta iota zeta. rewrite Hm. simpl.
  split; [|split].
  - reflexivity.
  - intros Hs. rewrite Hs. eexists. split; [reflexivity|]. repeat split.
  - intros Hs. rewrite Hs. eexists. split; [reflexivity|]. repeat split.
Qed.

Lemma empty_messages_synthesized_witness :
  chat_completions (Some (JObj [("messages", JArr []); ("stream", JBool true)])) "u" 0
    (failing_upstream (ExcAPIError "x")) =
  chat_completions (Some (JObj [("messages", JArr []); ("stream", JBool true)])) "u" 0
    (failing_upstream (ExcEmptyResponse "y")).
Proof.
  apply (empty_messages_synthesized
           [("messages", JArr []); ("stream", JBool true)] "u" 0
           (failing_upstream (ExcAPIError "x")) (failing_upstream (ExcEmptyResponse "y"))).
  reflexivity.
Defined.

(* ------------------------------------------------------------------ *)
(** ** Lemmas on the string helpers *)

(** Let [simpl] compute [String.append] (stdpp sets it [simpl never]). *)
Local Arguments String.append : simpl nomatch.

Lemma str_app_assoc (x y z : string) : (x ++ y) ++ z = x ++ (y ++ z).
Proof. induction x as [|c x IH]; simpl; [done | by rewrite IH]. Qed.

Lemma str_app_nil_r (x : string) : x ++ "" = x.
Proof. induction x as [|c x IH]; simpl; [done | by rewrite IH]. Qed.

Lemma rev_str_acc x acc : rev_str x acc = rev_str x "" ++ acc.
Proof.
  revert acc. induction x as [|c x IH]; intros acc; simpl; [done|].
  rewrite (IH (String c acc)), (IH (String c "")), str_app_assoc. done.
Qed.

Lemma rev_str_app x y acc : rev_str (x ++ y) acc = rev_str y (rev_str x acc).
Proof. revert acc. induction x as [|c x IH]; intros acc; simpl; [done | apply IH]. Qed.

Lemma rev_str_involutive x : rev_str (rev_str x "") "" = x.
Proof.
  induction x as [|c x IH]; simpl; [done|].
  rewrite (rev_str_acc x (String c "")), rev_str_app. simpl. rewrite IH. done.
Qed.

Lemma lstrip_app_nonspace x c y :
  py_isspace c = false → lstrip (x ++ String c y) = lstrip x ++ String c y.
Proof.
  intros Hc. induction x as [|d x IH]; simpl; [by rewrite Hc|].
  destruct (py_isspace d); [exact IH | done].
Qed.

Lemma lstrip_idem x : lstrip (lstrip x) = lstrip x.
Proof.
  induction x as [|c x IH]; simpl; [done|].
  destruct (py_isspace c) eqn:Hc; [exact IH | simpl; by rewrite Hc].
Qed.

Lemma lstrip_decomp x : ∃ w, x = w ++ lstrip x ∧ lstrip w = "".
Proof.
  induction x as [|c x (w & Hw & Hl)]; simpl; [by exists ""|].
  destruct (py_isspace c) eqn:Hc.
  - exists (String c w). simpl. rewrite Hc, <- Hw. done.
  - by exists "".
Qed.

Lemma lstrip_head x : lstrip x = "" ∨ ∃ c y, lstrip x = String c y ∧ py_isspace c = false.
Proof.
  induction x as [|c x IH]; simpl; [by left|].
  destruct (py_isspace c) eqn:Hc; [exact IH | right; by exists c, x].
Qed.

Lemma lstrip_app x y :
  lstrip (x ++ y) = match lstrip x with "" => lstrip y | _ => lstrip x ++ y end.
Proof.
  induction x as [|c x IH]; simpl; [done|].
  destruct (py_isspace c); [exact IH | done].
Qed.

Lemma rstrip_app_nonspace x c y :
  py_isspace c = false → rstrip (x ++ String c y) = x ++ String c (rstrip y).
Proof.
  intros Hc. unfold rstrip.
  rewrite rev_str_app. simpl. rewrite (rev_str_acc y), lstrip_app.
  destruct (lstrip (rev_str y "")) as [|d z] eqn:E; simpl.
  - rewrite Hc. simpl.
    rewrite (rev_str_acc (rev_str x "")), rev_str_involutive. done.
  - rewrite rev_str_app. simpl.
    rewrite (rev_str_acc (rev_str x "")), rev_str_involutive. done.
Qed.

Lemma rstrip_app_space x c :
  py_isspace c = true → rstrip (x ++ String c "") = rstrip x.
Proof.
  intros Hc. unfold rstrip. rewrite rev_str_app. simpl. by rewrite Hc.
Qed.

Lemma rstrip_idem x : rstrip (rstrip x) = rstrip x.
Proof. unfold rstrip. by rewrite rev_str_involutive, lstrip_idem. Qed.

Lemma lstrip_rstrip x : lstrip (rstrip x) = rstrip (lstrip x).
Proof.
  destruct (lstrip_decomp x) as (w & Hw & Hlw).
  destruct (lstrip_head x) as [E|(c & y & E & Hc)].
  - rewrite E. rewrite Hw, E, str_app_nil_r.
    assert (Hr : rstrip w = "").
    { unfold rstrip.
      assert (H : ∀ acc, lstrip w = "" → lstrip (rev_str w acc) = lstrip acc).
      { clear. induction w as [|e w IH]; intros acc Hl; simpl in *; [done|].
        destruct (py_isspace e) eqn:He; [|discriminate].
        rewrite IH by exact Hl. simpl. by rewrite He. }
      by rewrite H. }
    by rewrite Hr.
  - rewrite Hw, E, rstrip_app_nonspace by exact Hc.
    pose proof (rstrip_app_nonspace "" c y Hc) as H1. simpl in H1.
    rewrite !lstrip_app, Hlw. simpl. rewrite Hc, H1. done.
Qed.

Lemma strip_idem x : strip (strip x) = strip x.
Proof.
  unfold strip. rewrite lstrip_rstrip, lstrip_idem, rstrip_idem. done.
Qed.

Lemma strip_lstrip x : strip (lstrip x) = strip x.
Proof. unfold strip. by rewrite lstrip_idem. Qed.

Lemma strip_rstrip x : strip (rstrip x) = strip x.
Proof. unfold strip. by rewrite lstrip_rstrip, rstrip_idem. Qed.

Lemma strip_app_space x c :
  py_isspace c = true → strip (x ++ String c "") = strip x.
Proof.
  intros Hc. unfold strip. rewrite lstrip_app.
  destruct (lstrip x) as [|d z] eqn:E; simpl.
  - by rewrite Hc.
  - exact (rstrip_app_space (String d z) c Hc).
Qed.

Lemma str_mem_app c x y : str_mem c (x ++ y) = str_mem c x || str_mem c y.
Proof. induction x as [|d x IH]; simpl; [done | by rewrite IH, orb_assoc]. Qed.

Lemma split_once_app c x y :
  str_mem c x = false → split_once c (x ++ String c y) = Some (x, y).
Proof.
  induction x as [|d x IH]; simpl; intros H.
  - by rewrite Ascii.eqb_refl.
  - apply orb_false_iff in H as [H1 H2]. rewrite H1, IH by exact H2. done.
Qed.

(** [load_line] ignores the line terminator a text-mode read keeps. *)
Lemma load_line_nl now acc l : load_line now acc (l ++ nl) = load_line now acc l.
Proof. unfold load_line, nl. by rewrite strip_app_space. Qed.

Lemma py_lines_go_plain a s cur :
  no_newline a = true → py_lines_go (a ++ s) cur = py_lines_go s (cur ++ a).
Proof.
  revert cur. induction a as [|c a IH]; intros cur Ha; cbn [String.append py_lines_go].
  - by rewrite str_app_nil_r.
  - unfold no_newline in Ha. cbn [str_mem] in Ha.
    apply andb_true_iff in Ha as [H1 H2].
    apply negb_true_iff, orb_false_iff in H1 as [H10 H1].
    apply negb_true_iff, orb_false_iff in H2 as [H13 H2].
    rewrite Ascii.eqb_sym in H10, H13. rewrite H10, H13.
    rewrite IH, str_app_assoc; [done|].
    unfold no_newline. by rewrite H1, H2.
Qed.

(** Reading back a ['\n']-joined list of lines gives the same table. *)
Lemma parse_joined_lines now ls acc :
  Forall (λ l, no_newline l = true) ls →
  fold_left (load_line now) (py_text_lines (String.concat nl ls)) acc =
  fold_left (load_line now) ls acc.
Proof.
  unfold py_text_lines. revert acc.
  induction ls as [|x [|y ls] IH]; intros acc Hall; simpl.
  - done.
  - rewrite <- (str_app_nil_r x), py_lines_go_plain by (inversion Hall; done).
    simpl. rewrite str_app_nil_r.
    destruct (String.eqb_spec x "") as [->|]; simpl; [|done].
    unfold load_line. simpl. done.
  - inversion Hall as [|? ? Hx Hrest]; subst.
    rewrite py_lines_go_plain by exact Hx. simpl.
    rewrite load_line_nl. apply (IH (load_line now acc x) Hrest).
Qed.

Lemma str_mem_lstrip c x : str_mem c x = false → str_mem c (lstrip x) = false.
Proof.
  induction x as [|d x IH]; simpl; [done|]. intros H.
  apply orb_false_iff in H as [H1 H2].
  destruct (py_isspace d); [auto | simpl; by rewrite H1, H2].
Qed.

Lemma strip_colon_line n k d :
  strip (n ++ String ":" (k ++ String ":" d)) =
  lstrip n ++ String ":" (k ++ String ":" (rstrip d)).
Proof.
  unfold strip. rewrite lstrip_app_nonspace by reflexivity.
  rewrite rstrip_app_nonspace by reflexivity.
  rewrite rstrip_app_nonspace by reflexivity. done.
Qed.

Lemma colon_line_kept n z :
  startswith n "#" = false →
  String.eqb (n ++ String ":" z) "" || startswith (n ++ String ":" z) "#" = false.
Proof.
  destruct n as [|d n]; [intros _; reflexivity|]. unfold startswith.
  cbn [String.prefix String.append String.eqb orb].
  destruct (ascii_dec "#" d); [|done].
  intros H. exfalso. destruct n; discriminate H.
Qed.

(** A line written by [save_keys] for a clean entry is read back by
    [load_keys] as a fresh, active record under the same key, with the
    name and the description stripped and the status word appended to the
    description. *)
Lemma load_line_save_line now acc k r :
  save_clean k r →
  load_line now acc (save_line (k, r)) =
  (<[k := fresh_record (strip (name r))
            (strip (description r ++ " " ++ save_status r)) now]> acc.1,
   {[k]} ∪ acc.2).
Proof.
  intros (Hk & Hn & Hs & Hp & Hh & _).
  unfold load_line, save_line. cbn [fst snd String.append].
  rewrite strip_colon_line.
  rewrite colon_line_kept by exact Hh.
  unfold split2.
  rewrite split_once_app by (apply str_mem_lstrip, Hn).
  rewrite split_once_app by exact Hk.
  cbv zeta. rewrite strip_lstrip, Hs, strip_rstrip, Hp. done.
Qed.

Lemma fst_prod_map {A B C} (f : B → C) (l : list (A * B)) :
  (prod_map id f <$> l).*1 = l.*1.
Proof. induction l as [|[a b] l IH]; [done|]. by rewrite !fmap_cons, IH. Qed.

Lemma fold_save_lines now items acc :
  Forall (λ kv, save_clean kv.1 kv.2) items → NoDup items.*1 →
  fold_left (load_line now) (map save_line items) acc =
  (list_to_map (prod_map id (reload_record now) <$> items) ∪ acc.1,
   list_to_set items.*1 ∪ acc.2).
Proof.
  revert acc. induction items as [|[k r] items IH]; intros acc Hc Hnd.
  - destruct acc. simpl. by rewrite !(left_id_L ∅ union).
  - inversion Hc as [|? ? Hkr Hc']; subst. inversion Hnd as [|? ? Hk Hnd']; subst.
    cbn [map fold_left].
    rewrite load_line_save_line by exact Hkr. rewrite IH by done. cbn [fst snd].
    rewrite fmap_cons.
    change (prod_map id (reload_record now) (k, r)) with (k, reload_record now r).
    rewrite list_to_map_cons. f_equal.
    + rewrite <- insert_union_l, insert_union_r; [done|].
      apply not_elem_of_list_to_map_1. by rewrite fst_prod_map.
    + set_solver.
Qed.

Lemma save_line_no_newline k r :
  save_clean k r → no_newline (save_line (k, r)) = true.
Proof.
  intros (_ & _ & _ & _ & _ & Hk & Hn & Hd).
  assert (Hst : no_newline (save_status r) = true)
    by (unfold save_status; destruct (is_active r); reflexivity).
  unfold no_newline in *. unfold save_line. cbn [fst snd].
  apply andb_true_iff in Hk as [Hk1 Hk2], Hn as [Hn1 Hn2],
    Hd as [Hd1 Hd2], Hst as [Hs1 Hs2].
  apply negb_true_iff in Hk1, Hk2, Hn1, Hn2, Hd1, Hd2, Hs1, Hs2.
  rewrite !str_mem_app. cbn [str_mem].
  rewrite Hk1, Hk2, Hn1, Hn2, Hd1, Hd2, Hs1, Hs2. reflexivity.
Qed.

Lemma header_lines_ignored now acc :
  fold_left (load_line now) save_header acc = acc.
Proof. reflexivity. Qed.

Lemma list_to_set_fst_map_to_list (m : gmap string key_record) :
  list_to_set (map_to_list m).*1 = (dom m : gset string).
Proof.
  apply leibniz_equiv. intros k.
  rewrite elem_of_list_to_set, elem_of_dom, list_elem_of_fmap. split.
  - intros ([k' r] & -> & H). apply elem_of_map_to_list in H. by eexists.
  - intros [r H]. exists (k, r). split; [done|]. by apply elem_of_map_to_list.
Qed.

(** [save_keys] followed by [load_keys]: when every entry is clean (see
    [save_clean]) and [save_keys] walks the dict in any order, reading the
    written file back succeeds and rebuilds the same keys, all active, each
    record fresh, with the name stripped and the status word ("inactive"
    for a deactivated key) appended to the stripped description. *)
Theorem save_keys_load_keys_roundtrip s items mtime now :
  items ≡ₚ map_to_list (api_keys s) →
  map_Forall save_clean (api_keys s) →
  load_keys s (StorePresent mtime (py_text_lines (save_keys_content items)) false) now =
  (true, mk_registry (reload_record now <$> api_keys s) (dom (api_keys s)) now).
Proof.
  intros Hp Hc.
  assert (Hf : Forall (λ kv, save_clean kv.1 kv.2) items).
  { apply Forall_forall. intros [k r] Hin.
    rewrite Hp in Hin. apply elem_of_map_to_list in Hin. exact (Hc k r Hin). }
  assert (Hnd : NoDup items.*1) by (rewrite Hp; apply NoDup_fst_map_to_list).
  unfold load_keys, parse_lines, save_keys_content.
  rewrite parse_joined_lines.
  2: { apply Forall_app. split; [unfold save_header; repeat constructor|].
       apply Forall_map. eapply Forall_impl; [exact Hf|].
       intros [k r]. apply save_line_no_newline. }
  rewrite fold_left_app, header_lines_ignored, fold_save_lines by done.
  cbn [fst snd]. rewrite !(right_id_L ∅ union). f_equal. f_equal.
  - rewrite (list_to_map_proper _ (prod_map id (reload_record now) <$> map_to_list (api_keys s))).
    + by rewrite <- map_to_list_fmap, list_to_map_to_list.
    + by rewrite fst_prod_map.
    + by rewrite Hp.
  - rewrite <- list_to_set_fst_map_to_list. apply leibniz_equiv. intros k.
    rewrite !elem_of_list_to_set, Hp. done.
Qed.

Lemma save_keys_load_keys_roundtrip_witness :
  map_Forall save_clean ({["sk-abc" := mk_record " bot" "team key" 5 7 9 false]} : gmap string key_record) ∧
  load_keys (mk_registry ({["sk-abc" := mk_record " bot" "team key" 5 7 9 false]} : gmap string key_record) ∅ 3)
    (StorePresent 4 (py_text_lines (save_keys_content
       (map_to_list ({["sk-abc" := mk_record " bot" "team key" 5 7 9 false]} : gmap string key_record)))) false) 10 =
  (true, mk_registry
     (reload_record 10 <$> ({["sk-abc" := mk_record " bot" "team key" 5 7 9 false]} : gmap string key_record))
     (dom ({["sk-abc" := mk_record " bot" "team key" 5 7 9 false]} : gmap string key_record)) 10).
Proof.
  assert (Hc : map_Forall save_clean
    ({["sk-abc" := mk_record " bot" "team key" 5 7 9 false]} : gmap string key_record))
    by (apply map_Forall_singleton; unfold save_clean; repeat split).
  split; [exact Hc|].
  pose proof (save_keys_load_keys_roundtrip
    (mk_registry ({["sk-abc" := mk_record " bot" "team key" 5 7 9 false]} : gmap string key_record) ∅ 3)
    (map_to_list ({["sk-abc" := mk_record " bot" "team key" 5 7 9 false]} : gmap string key_record))
    4 10) as H. cbn [api_keys] in H. exact (H ltac:(done) Hc).
Defined.

(* ------------------------------------------------------------------ *)
(** ** Further properties of the registry *)

Lemma create_key_prefix t : startswith ("sk-" ++ t) "sk-" = true.
Proof. destruct t; reflexivity. Qed.

Lemma insert_existing_prefixed tbl k r :
  keys_prefixed tbl → is_Some (tbl !! k) → keys_prefixed (<[k := r]> tbl).
Proof.
  intros H [r0 Hk] k' r'. rewrite lookup_insert_Some.
  intros [[<- _] | [_ Hk']]; [exact (H k r0 Hk) | exact (H k' r' Hk')].
Qed.

Lemma load_line_prefixed now acc l :
  keys_prefixed acc.1 → keys_prefixed (load_line now acc l).1.
Proof.
  intros H. unfold load_line.
  destruct (_ || _); [exact H|].
  destruct (split2 _ _) as [|a [|b rest]]; try exact H.
  cbv zeta. destruct (startswith (strip b) "sk-") eqn:Hp; [simpl|exact H].
  intros k r. rewrite lookup_insert_Some.
  intros [[<- _] | [_ Hk]]; [exact Hp | exact (H k r Hk)].
Qed.

Lemma parse_lines_prefixed now ls : keys_prefixed (parse_lines now ls).1.
Proof.
  unfold parse_lines.
  cut (∀ acc, keys_prefixed acc.1 → keys_prefixed (fold_left (load_line now) ls acc).1).
  { intros Hc. apply Hc. intros k r. simpl. by rewrite lookup_empty. }
  induction ls as [|l ls IH]; intros acc Hacc; simpl; [exact Hacc|].
  apply IH, load_line_prefixed, Hacc.
Qed.

Lemma load_keys_prefixed s st now :
  keys_prefixed (api_keys s) → keys_prefixed (api_keys (load_keys s st now).2).
Proof.
  intros H. destruct st as [|m ls err]; [exact H|]. simpl.
  destruct err; apply parse_lines_prefixed.
Qed.

Lemma validate_locked_prefixed s k now :
  keys_prefixed (api_keys s) → keys_prefixed (api_keys (validate_locked s k now).2).
Proof.
  intros H. unfold validate_locked.
  destruct (api_keys s !! k) as [r|] eqn:E; [|exact H].
  destruct (is_active r); [|exact H]. simpl.
  apply insert_existing_prefixed; [exact H | by eexists].
Qed.

Lemma apply_op_prefixed s op :
  keys_prefixed (api_keys s) → keys_prefixed (api_keys (apply_op s op)).
Proof.
  intros H. destruct op as [st now|st raw now|n d t now|k|k]; simpl.
  - by apply load_keys_prefixed.
  - unfold validate_key. destruct (String.eqb raw ""); [exact H|].
    apply validate_locked_prefixed.
    destruct (should_reload s st); [by apply load_keys_prefixed | exact H].
  - intros k r. rewrite lookup_insert_Some.
    intros [[<- _] | [_ Hk]]; [apply create_key_prefix | exact (H k r Hk)].
  - unfold activate_key. destruct (api_keys s !! k) eqn:E; [|exact H].
    apply insert_existing_prefixed; [exact H | by eexists].
  - unfold deactivate_key. destruct (api_keys s !! k) eqn:E; [|exact H].
    apply insert_existing_prefixed; [exact H | by eexists].
Qed.

(** Whatever sequence of loads, validations, creations, activations and
    deactivations runs from the empty registry, every key in [api_keys]
    starts with ["sk-"]: [load_keys] skips other keys and [create_key]
    builds ["sk-" + token]; the other operations only rewrite existing keys. *)
Theorem reachable_keys_prefixed ops :
  keys_prefixed (api_keys (run_ops init_registry ops)).
Proof.
  unfold run_ops.
  cut (∀ s, keys_prefixed (api_keys s) → keys_prefixed (api_keys (fold_left apply_op ops s))).
  { intros Hc. apply Hc. intros k r. simpl. by rewrite lookup_empty. }
  induction ops as [|op ops IH]; intros s Hs; simpl; [exact Hs|].
  apply IH, apply_op_prefixed, Hs.
Qed.

(** [validate_key] without a reload never adds or removes a key, never
    changes [active_keys] and never touches [last_reload_time]: it only
    bumps the counters of one existing record. *)
Theorem validate_keeps_key_sets s st raw now :
  should_reload s st = false →
  dom (api_keys (validate_key s st raw now).2) = dom (api_keys s) ∧
  active_keys (validate_key s st raw now).2 = active_keys s ∧
  last_reload_time (validate_key s st raw now).2 = last_reload_time s.
Proof.
  intros Hr. unfold validate_key.
  destruct (String.eqb raw ""); [done|]. rewrite Hr. cbv zeta.
  unfold validate_locked.
  destruct (api_keys s !! strip raw) as [r|] eqn:E; [|done].
  destruct (is_active r); [|done]. simpl.
  split; [|done]. rewrite dom_insert_L.
  apply elem_of_dom_2 in E. set_solver.
Qed.

Lemma validate_key_no_reload s st raw now :
  raw ≠ "" → should_reload s st = false →
  validate_key s st raw now = validate_locked s (strip raw) now.
Proof.
  intros Hne Hr. unfold validate_key.
  destruct (String.eqb_spec raw ""); [done|]. by rewrite Hr.
Qed.

(** [deactivate_key] followed by [validate_key] with the same key: the key
    is refused and the registry is left as it is (no usage is counted). *)
Theorem deactivated_key_refused s st raw now s1 :
  deactivate_key s (strip raw) = (true, s1) → should_reload s1 st = false →
  validate_key s1 st raw now = (false, s1).
Proof.
  unfold deactivate_key.
  destruct (api_keys s !! strip raw) as [r|] eqn:E; [|discriminate].
  intros [= <-] Hr. unfold validate_key.
  destruct (String.eqb raw ""); [done|]. rewrite Hr. cbv zeta.
  unfold validate_locked. simpl. by rewrite lookup_insert_eq.
Qed.

(** [activate_key] followed by [validate_key] with the same key: the key is
    accepted and its counters continue from where they were (activation
    does not reset them). *)
Theorem activated_key_accepted s st raw now r :
  raw ≠ "" → api_keys s !! strip raw = Some r →
  should_reload (activate_key s (strip raw)).2 st = false →
  (validate_key (activate_key s (strip raw)).2 st raw now).1 = true ∧
  api_keys (validate_key (activate_key s (strip raw)).2 st raw now).2 !! strip raw =
    Some (mk_record (name r) (description r) (created_at r) (usage_count r + 1) now true).
Proof.
  intros Hne E Hr. rewrite validate_key_no_reload by done.
  unfold activate_key in *. rewrite E in *.
  unfold validate_locked. simpl. rewrite lookup_insert_eq. simpl.
  by rewrite lookup_insert_eq.
Qed.

Lemma rstrip_cons_nonspace c y :
  py_isspace c = false → rstrip (String c y) = String c (rstrip y).
Proof. apply (rstrip_app_nonspace "" c y). Qed.

Lemma strip_sk_token t : rstrip t = t → strip ("sk-" ++ t) = "sk-" ++ t.
Proof.
  intros H. unfold strip.
  change (lstrip ("sk-" ++ t)) with (String "s" (String "k" (String "-" t))).
  rewrite !rstrip_cons_nonspace by reflexivity. rewrite H. reflexivity.
Qed.

(** A key made by [create_key] is accepted by [validate_key] right away
    (when no reload intervenes and the token has no trailing whitespace, as
    [secrets.token_urlsafe] guarantees): its fresh record is used once and
    every other record is as before. *)
Theorem created_key_accepted s st key_name desc token now now' :
  rstrip token = token →
  should_reload (create_key s key_name desc token now).2 st = false →
  validate_key (create_key s key_name desc token now).2 st
    (create_key s key_name desc token now).1 now' =
  (true, mk_registry
           (<[(create_key s key_name desc token now).1 :=
               mk_record key_name desc now 1 now' true]> (api_keys s))
           ({[(create_key s key_name desc token now).1]} ∪ active_keys s)
           (last_reload_time s)).
Proof.
  intros Ht Hr. unfold create_key in *. cbn [fst snd] in *.
  rewrite validate_key_no_reload by (destruct token; discriminate || done).
  rewrite strip_sk_token by exact Ht.
  unfold validate_locked. simpl. rewrite lookup_insert_eq. simpl.
  by rewrite insert_insert_eq.
Qed.

Lemma validate_keeps_key_sets_witness :
  should_reload (mk_registry {["sk-a" := mk_record "a" "" 1 3 4 true]} {["sk-a"]} 5)
    StoreMissing = false ∧
  dom (api_keys (validate_key (mk_registry {["sk-a" := mk_record "a" "" 1 3 4 true]}
     {["sk-a"]} 5) StoreMissing "sk-a" 7).2) =
    dom (api_keys (mk_registry {["sk-a" := mk_record "a" "" 1 3 4 true]} {["sk-a"]} 5)) ∧
  active_keys (validate_key (mk_registry {["sk-a" := mk_record "a" "" 1 3 4 true]}
     {["sk-a"]} 5) StoreMissing "sk-a" 7).2 = {["sk-a"]} ∧
  last_reload_time (validate_key (mk_registry {["sk-a" := mk_record "a" "" 1 3 4 true]}
     {["sk-a"]} 5) StoreMissing "sk-a" 7).2 = 5.
Proof.
  split; [reflexivity|].
  exact (validate_keeps_key_sets
    (mk_registry {["sk-a" := mk_record "a" "" 1 3 4 true]} {["sk-a"]} 5)
    StoreMissing "sk-a" 7 eq_refl).
Defined.

Lemma deactivated_key_refused_witness :
  deactivate_key (mk_registry {["sk-a" := mk_record "a" "" 1 3 4 true]} {["sk-a"]} 5)
    (strip " sk-a") =
    (true, (deactivate_key (mk_registry {["sk-a" := mk_record "a" "" 1 3 4 true]}
              {["sk-a"]} 5) "sk-a").2) ∧
  validate_key (deactivate_key (mk_registry {["sk-a" := mk_record "a" "" 1 3 4 true]}
     {["sk-a"]} 5) "sk-a").2 StoreMissing " sk-a" 7 =
    (false, (deactivate_key (mk_registry {["sk-a" := mk_record "a" "" 1 3 4 true]}
              {["sk-a"]} 5) "sk-a").2).
Proof.
  split; [reflexivity|].
  apply (deactivated_key_refused
    (mk_registry {["sk-a" := mk_record "a" "" 1 3 4 true]} {["sk-a"]} 5)
    StoreMissing " sk-a" 7); reflexivity.
Defined.

Lemma activated_key_accepted_witness :
  (validate_key (activate_key (mk_registry {["sk-a" := mk_record "a" "" 1 3 4 false]} ∅ 5)
     (strip "sk-a ")).2 StoreMissing "sk-a " 7).1 = true ∧
  api_keys (validate_key (activate_key (mk_registry {["sk-a" := mk_record "a" "" 1 3 4 false]}
     ∅ 5) (strip "sk-a ")).2 StoreMissing "sk-a " 7).2 !! strip "sk-a " =
    Some (mk_record "a" "" 1 (3 + 1) 7 true).
Proof.
  apply (activated_key_accepted
    (mk_registry {["sk-a" := mk_record "a" "" 1 3 4 false]} ∅ 5)
    StoreMissing "sk-a " 7 (mk_record "a" "" 1 3 4 false)); [discriminate | reflexivity..].
Defined.

Lemma created_key_accepted_witness :
  rstrip "tok" = "tok" ∧
  validate_key (create_key (mk_registry ∅ ∅ 5) "bot" "d" "tok" 6).2 StoreMissing
    (create_key (mk_registry ∅ ∅ 5) "bot" "d" "tok" 6).1 8 =
  (true, mk_registry (<["sk-tok" := mk_record "bot" "d" 6 1 8 true]> ∅)
           ({["sk-tok"]} ∪ ∅) 5).
Proof.
  split; [reflexivity|].
  apply (created_key_accepted (mk_registry ∅ ∅ 5) StoreMissing "bot" "d" "tok" 6 8);
    reflexivity.
Defined.

(* ------------------------------------------------------------------ *)
(** ** [get_stats] *)

Lemma NoDup_fst_filter (P : string * key_record → Prop) `{∀ x, Decision (P x)}
    (l : list (string * key_record)) :
  NoDup l.*1 → NoDup (filter P l).*1.
Proof.
  induction l as [|[k r] l IH]; intros Hnd; [constructor|].
  simpl in Hnd. inversion Hnd as [|? ? Hk Hnd']; subst.
  rewrite filter_cons. case_decide; [|auto].
  rewrite fmap_cons. cbn [fst]. constructor; [|auto].
  intros Hin. apply Hk.
  apply list_elem_of_fmap in Hin as ([k' r'] & -> & Hin).
  apply list_elem_of_filter in Hin as [_ Hin].
  apply list_elem_of_fmap. by exists (k', r').
Qed.

Lemma length_filter_snd (l : list (string * key_record)) :
  List.length (filter (λ kv : string * key_record, is_active kv.2 = true) l) =
  List.length (filter (λ r, is_active r = true) l.*2).
Proof.
  induction l as [|[k r] l IH]; [done|].
  rewrite fmap_cons, !filter_cons. cbn [snd].
  repeat case_decide; cbn [List.length]; try lia; congruence.
Qed.

(** [get_stats] on a registry whose [active_keys] index is consistent:
    ["total_keys"] is the number of keys, ["active_keys"] is the size of
    the [active_keys] set, and active plus inactive is the total. *)
Theorem get_stats_counts s now :
  index_ok s →
  st_total_keys (get_stats s now) = size (api_keys s) ∧
  st_active_keys (get_stats s now) = size (active_keys s) ∧
  (st_active_keys (get_stats s now) + st_inactive_keys (get_stats s now) =
   st_total_keys (get_stats s now))%nat.
Proof.
  intros Hs. unfold get_stats. cbn [st_total_keys st_active_keys st_inactive_keys].
  assert (Hact : active_keys s =
    dom (filter (λ kv : string * key_record, is_active kv.2 = true) (api_keys s))).
  { symmetry. apply dom_filter_L. intros k. rewrite (Hs k). done. }
  split; [|split].
  - by rewrite length_fmap, length_map_to_list.
  - rewrite Hact, size_dom, map_filter_alt, map_size_list_to_map.
    + by rewrite length_filter_snd.
    + apply NoDup_fst_filter, NoDup_fst_map_to_list.
  - pose proof (length_filter (λ r, is_active r = true)
      (map_to_list (api_keys s)).*2). lia.
Qed.

Lemma usage_sum_perm (l1 l2 : list key_record) :
  l1 ≡ₚ l2 →
  foldr (λ r acc, (usage_count r + acc)%Z) 0%Z l1 =
  foldr (λ r acc, (usage_count r + acc)%Z) 0%Z l2.
Proof. induction 1; simpl; lia. Qed.

Lemma usage_sum_insert (m : gmap string key_record) k r r' :
  m !! k = Some r →
  foldr (λ r acc, (usage_count r + acc)%Z) 0%Z (map_to_list (<[k := r']> m)).*2 =
  (foldr (λ r acc, (usage_count r + acc)%Z) 0%Z (map_to_list m).*2
   - usage_count r + usage_count r')%Z.
Proof.
  intros E.
  rewrite (usage_sum_perm _ (r' :: (map_to_list (delete k m)).*2)).
  - rewrite (usage_sum_perm ((map_to_list m).*2) (r :: (map_to_list (delete k m)).*2)).
    + simpl. lia.
    + by rewrite <- (map_to_list_delete m k r E).
  - rewrite <- insert_delete_eq, map_to_list_insert by apply lookup_delete_eq. done.
Qed.

(** A successful [validate_key] (no reload) adds exactly one to the
    ["total_usage"] that [get_stats] reports. *)
Theorem validate_success_counts_one_use s st raw now s' now' :
  should_reload s st = false → validate_key s st raw now = (true, s') →
  st_total_usage (get_stats s' now') = (st_total_usage (get_stats s now') + 1)%Z.
Proof.
  intros Hr. unfold validate_key.
  destruct (String.eqb raw ""); [discriminate|]. rewrite Hr. cbv zeta.
  unfold validate_locked.
  destruct (api_keys s !! strip raw) as [r|] eqn:E; [|discriminate].
  destruct (is_active r); [|discriminate]. intros [= <-].
  unfold get_stats. cbn [st_total_usage api_keys].
  rewrite (usage_sum_insert _ _ r _ E). simpl. lia.
Qed.

Lemma get_stats_counts_witness :
  index_ok (run_ops init_registry [OpCreate "a" "" "x" 1; OpCreate "b" "" "y" 1;
                                   OpDeactivate "sk-y"]) ∧
  st_total_keys (get_stats (run_ops init_registry [OpCreate "a" "" "x" 1;
     OpCreate "b" "" "y" 1; OpDeactivate "sk-y"]) 2) =
    size (api_keys (run_ops init_registry [OpCreate "a" "" "x" 1;
     OpCreate "b" "" "y" 1; OpDeactivate "sk-y"])) ∧
  st_active_keys (get_stats (run_ops init_registry [OpCreate "a" "" "x" 1;
     OpCreate "b" "" "y" 1; OpDeactivate "sk-y"]) 2) =
    size (active_keys (run_ops init_registry [OpCreate "a" "" "x" 1;
     OpCreate "b" "" "y" 1; OpDeactivate "sk-y"])) ∧
  (st_active_keys (get_stats (run_ops init_registry [OpCreate "a" "" "x" 1;
     OpCreate "b" "" "y" 1; OpDeactivate "sk-y"]) 2) +
   st_inactive_keys (get_stats (run_ops init_registry [OpCreate "a" "" "x" 1;
     OpCreate "b" "" "y" 1; OpDeactivate "sk-y"]) 2) =
   st_total_keys (get_stats (run_ops init_registry [OpCreate "a" "" "x" 1;
     OpCreate "b" "" "y" 1; OpDeactivate "sk-y"]) 2))%nat.
Proof.
  assert (H : index_ok (run_ops init_registry [OpCreate "a" "" "x" 1;
    OpCreate "b" "" "y" 1; OpDeactivate "sk-y"]))
    by (apply run_ops_index_ok, init_index_ok).
  split; [exact H|]. exact (get_stats_counts _ 2 H).
Defined.

Lemma validate_success_counts_one_use_witness :
  should_reload (mk_registry {["sk-a" := mk_record "a" "" 1 3 4 true]} {["sk-a"]} 5)
    StoreMissing = false ∧
  st_total_usage (get_stats (validate_key (mk_registry {["sk-a" := mk_record "a" "" 1 3 4 true]}
     {["sk-a"]} 5) StoreMissing "sk-a" 7).2 9) =
  (st_total_usage (get_stats (mk_registry {["sk-a" := mk_record "a" "" 1 3 4 true]}
     {["sk-a"]} 5) 9) + 1)%Z.
Proof.
  split; [reflexivity|].
  exact (validate_success_counts_one_use
    (mk_registry {["sk-a" := mk_record "a" "" 1 3 4 true]} {["sk-a"]} 5)
    StoreMissing "sk-a" 7 _ 9 eq_refl eq_refl).
Defined.

(* ------------------------------------------------------------------ *)
(** ** Further properties of the gate and the chat route *)

Lemma extract_stripped h k :
  extract_api_key_from_request h = Some k → strip k = k.
Proof.
  unfold extract_api_key_from_request.
  destruct h as [h|]; [|discriminate].
  destruct (String.eqb h ""); [discriminate|]. cbv zeta.
  destruct (startswith (strip h) "Bearer "); [|discriminate].
  intros [= <-]. apply strip_idem.
Qed.

(** [extract_api_key_from_request] ignores whitespace around the header
    value, and the key it returns never has surrounding whitespace. *)
Theorem extract_whitespace_insensitive h :
  extract_api_key_from_request (Some (strip h)) = extract_api_key_from_request (Some h) ∧
  (∀ k, extract_api_key_from_request (Some h) = Some k → strip k = k).
Proof.
  split; [|apply extract_stripped].
  unfold extract_api_key_from_request.
  destruct (String.eqb_spec h "") as [->|Hh]; [reflexivity|].
  destruct (String.eqb_spec (strip h) "") as [E|E]; cbv zeta.
  - rewrite E. reflexivity.
  - by rewrite strip_idem.
Qed.

Lemma validate_key_true s st raw now s' :
  validate_key s st raw now = (true, s') →
  raw ≠ "" ∧ ∃ r, api_keys s' !! strip raw = Some r ∧ is_active r = true ∧ last_used r = now.
Proof.
  unfold validate_key.
  destruct (String.eqb_spec raw ""); [discriminate|]. cbv zeta.
  generalize (if should_reload s st then (load_keys s st now).2 else s). intros s1.
  unfold validate_locked.
  destruct (api_keys s1 !! strip raw) as [r|] eqn:E; [|discriminate].
  destruct (is_active r) eqn:Ha; [|discriminate]. intros [= <-].
  split; [done|]. simpl. rewrite lookup_insert_eq. by eexists.
Qed.

(** A request the middleware lets through with a key (authentication
    enabled, path not excluded) carries in [request.state.key_info] the
    record of that very key, active and stamped with the time of this
    request; the key itself has no surrounding whitespace. *)
Theorem gate_admits_active_key excl s st now path hdr k info s' :
  dispatch excl false s st now path hdr = (GateAdmit (CtxKey k info), s') →
  strip k = k ∧ ∃ r, info = Some r ∧ is_active r = true ∧ last_used r = now.
Proof.
  unfold dispatch.
  destruct (bool_decide (path ∈ excl)); [intros [=]|].
  destruct (extract_api_key_from_request hdr) as [k0|] eqn:Ex; [|intros [=]].
  destruct (String.eqb k0 ""); [intros [=]|].
  destruct (validate_key s st k0 now) as [ok s1] eqn:V.
  destruct ok; [|intros [=]]. intros [= <- <- <-].
  pose proof (extract_stripped _ _ Ex) as Hk.
  apply validate_key_true in V as [Hne (r & Hr & Ha & Hl)].
  split; [exact Hk|]. exists r. split; [|done].
  unfold get_key_info. destruct (String.eqb_spec k0 ""); [done|]. exact Hr.
Qed.

(** What the route handler can fail with: a body that is not a JSON
    object gives 500 whatever the upstream does; an error status other
    than 500 is only ever the status of an [HTTPException] raised by
    [complete_chat], passed through; and the only other exception it lets
    through is the cancellation. *)
Theorem chat_error_statuses body uuid now up :
  ((∀ fs, body ≠ Some (JObj fs)) → chat_completions body uuid now up = RespHTTPError 500) ∧
  (∀ c, chat_completions body uuid now up = RespHTTPError c →
     c = 500%Z ∨ ∃ d, up_complete up = inr (ExcHTTP c d)) ∧
  (∀ e, chat_completions body uuid now up = RespRaise e → e = ExcCancelled).
Proof.
  unfold chat_completions. split; [|split].
  - intros Hb. destruct body as [[]|]; try reflexivity. by destruct (Hb fields).
  - intros c. repeat case_match; intros Hr; try discriminate;
      injection Hr as <-; eauto.
  - intros e. repeat case_match; congruence.
Qed.

(** While the client stays connected (and the upstream is not cancelled),
    the streaming generator forwards every upstream chunk unchanged and in
    order, and the client gets status 200, those chunks and a normally
    terminated message whether or not the upstream failed: an upstream
    failure only shows as the generator ending with an exception instead
    of returning, which happens exactly when the upstream raised. *)
Theorem stream_connected_forwards_all i chunks fin disc :
  (∀ j, disc j = false) → fin ≠ Some ExcCancelled →
  (stream_with_disconnect_check i chunks fin disc).1 = map SseRaw chunks ∧
  streaming_response_wire (stream_with_disconnect_check i chunks fin disc) =
    mk_wire 200 (map SseRaw chunks) true ∧
  ((stream_with_disconnect_check i chunks fin disc).2 = GenDone ↔ fin = None).
Proof.
  intros Hd Hc.
  assert (H : stream_with_disconnect_check i chunks fin disc =
              (map SseRaw chunks, (stream_with_disconnect_check i [] fin disc).2)).
  { revert i. induction chunks as [|c cs IH]; intros i; [reflexivity|].
    simpl. rewrite Hd, IH. reflexivity. }
  unfold streaming_response_wire. rewrite H. cbn.
  split; [done|]. split.
  - destruct fin as [[]|]; [done..| |done|done]. by destruct Hc.
  - destruct fin as [[]|]; split; done.
Qed.

Lemma extract_whitespace_insensitive_witness :
  extract_api_key_from_request (Some " Bearer sk-a ") = Some "sk-a" ∧
  extract_api_key_from_request (Some (strip " Bearer sk-a ")) =
    extract_api_key_from_request (Some " Bearer sk-a ") ∧
  strip "sk-a" = "sk-a".
Proof.
  destruct (extract_whitespace_insensitive " Bearer sk-a ") as [H1 H2].
  split; [reflexivity|]. split; [exact H1|]. apply H2. reflexivity.
Defined.

Lemma gate_admits_active_key_witness :
  dispatch app_excluded_paths false
    (mk_registry {["sk-a" := mk_record "a" "" 1 3 4 true]} {["sk-a"]} 5)
    StoreMissing 7 "/v1/chat/completions" (Some "Bearer sk-a") =
  (GateAdmit (CtxKey "sk-a" (Some (mk_record "a" "" 1 4 7 true))),
   (validate_key (mk_registry {["sk-a" := mk_record "a" "" 1 3 4 true]} {["sk-a"]} 5)
      StoreMissing "sk-a" 7).2) ∧
  strip "sk-a" = "sk-a" ∧
  ∃ r, Some (mk_record "a" "" 1 4 7 true) = Some r ∧ is_active r = true ∧ last_used r = 7%Z.
Proof.
  split; [reflexivity|].
  exact (gate_admits_active_key app_excluded_paths
    (mk_registry {["sk-a" := mk_record "a" "" 1 3 4 true]} {["sk-a"]} 5)
    StoreMissing 7 "/v1/chat/completions" (Some "Bearer sk-a") "sk-a"
    (Some (mk_record "a" "" 1 4 7 true)) _ eq_refl).
Defined.

Lemma chat_error_statuses_witness :
  chat_completions (Some (JObj [("messages", JArr [JStr "hi"])])) "u" 1
    (mk_upstream [] None (λ _, false) (inr (ExcHTTP 429 "busy"))) = RespHTTPError 429 ∧
  (429%Z = 500%Z ∨ ∃ d,
     up_complete (mk_upstream [] None (λ _, false) (inr (ExcHTTP 429 "busy"))) =
     inr (ExcHTTP 429 d)) ∧
  chat_completions (Some (JArr [])) "u" 1
    (mk_upstream [] None (λ _, false) (inr (ExcHTTP 429 "busy"))) = RespHTTPError 500.
Proof.
  split; [reflexivity|]. split.
  - apply (proj1 (proj2 (chat_error_statuses (Some (JObj [("messages", JArr [JStr "hi"])]))
      "u" 1 (mk_upstream [] None (λ _, false) (inr (ExcHTTP 429 "busy")))))).
    reflexivity.
  - apply (proj1 (chat_error_statuses (Some (JArr [])) "u" 1
      (mk_upstream [] None (λ _, false) (inr (ExcHTTP 429 "busy"))))).
    intros fs. discriminate.
Defined.

Lemma stream_connected_forwards_all_witness :
  Some (ExcAPIError "x") ≠ Some ExcCancelled ∧
  (stream_with_disconnect_check 0 ["a"; "b"] (Some (ExcAPIError "x")) (λ _, false)).1 =
    map SseRaw ["a"; "b"] ∧
  streaming_response_wire
    (stream_with_disconnect_check 0 ["a"; "b"] (Some (ExcAPIError "x")) (λ _, false)) =
    mk_wire 200 (map SseRaw ["a"; "b"]) true ∧
  ((stream_with_disconnect_check 0 ["a"; "b"] (Some (ExcAPIError "x")) (λ _, false)).2 = GenDone
   ↔ Some (ExcAPIError "x") = None).
Proof.
  split; [discriminate|].
  apply stream_connected_forwards_all; [reflexivity | discriminate].
Defined.

(* ------------------------------------------------------------------ *)
(** ** [_parse_bool_env] *)

Lemma lower_app x y : lower (x ++ y) = lower x ++ lower y.
Proof. induction x as [|c x IH]; simpl; [done | by rewrite IH]. Qed.

Lemma lower_char_space c : py_isspace c = true → lower_char c = c.
Proof.
  unfold py_isspace, lower_char. intros H.
  replace ((65 <=? nat_of_ascii c)%nat) with false; [done|].
  symmetry. apply Nat.leb_gt.
  apply orb_true_iff in H as [H|H]; apply andb_true_iff in H as [_ H];
    apply Nat.leb_le in H; lia.
Qed.

Lemma lower_char_idem c : lower_char (lower_char c) = lower_char c.
Proof.
  unfold lower_char at 2 3.
  destruct ((65 <=? nat_of_ascii c) && (nat_of_ascii c <=? 90))%nat eqn:E.
  - apply andb_true_iff in E as [E1 E2]. apply Nat.leb_le in E1, E2.
    unfold lower_char. rewrite nat_ascii_embedding by lia.
    replace ((nat_of_ascii c + 32 <=? 90)%nat) with false
      by (symmetry; apply Nat.leb_gt; lia).
    by rewrite andb_false_r.
  - unfold lower_char. by rewrite E.
Qed.

Lemma lower_idem x : lower (lower x) = lower x.
Proof. induction x as [|c x IH]; simpl; [done | by rewrite lower_char_idem, IH]. Qed.

Lemma lstrip_nil_cons c x : lstrip (String c x) = "" → py_isspace c = true ∧ lstrip x = "".
Proof. simpl. destruct (py_isspace c); [done | discriminate]. Qed.

Lemma lstrip_lower_space w : lstrip w = "" → lstrip (lower w) = "".
Proof.
  induction w as [|c w IH]; [done|]. intros [Hc Hw]%lstrip_nil_cons.
  simpl. rewrite lower_char_space, Hc by exact Hc. by apply IH.
Qed.

Lemma lstrip_rev_space x acc : lstrip x = "" → lstrip (rev_str x acc) = lstrip acc.
Proof.
  revert acc. induction x as [|c x IH]; intros acc; [done|].
  intros [Hc Hx]%lstrip_nil_cons. simpl. rewrite IH by exact Hx. simpl. by rewrite Hc.
Qed.

Lemma rstrip_app_spaces y w : lstrip w = "" → rstrip (y ++ w) = rstrip y.
Proof.
  intros Hw. unfold rstrip. rewrite rev_str_app, lstrip_rev_space by exact Hw. done.
Qed.

Lemma strip_surround a b c :
  lstrip a = "" → lstrip c = "" → strip (a ++ b ++ c) = strip b.
Proof.
  intros Ha Hc. unfold strip. rewrite lstrip_app, Ha, lstrip_app.
  destruct (lstrip b) as [|d z] eqn:Eb.
  - by rewrite Hc.
  - apply rstrip_app_spaces, Hc.
Qed.

(** [_parse_bool_env] ignores whitespace around the value and its letter
    case, and an unset variable gives the default. *)
Theorem parse_bool_env_normalises w1 v w2 d :
  lstrip w1 = "" → lstrip w2 = "" →
  parse_bool_env (Some (w1 ++ v ++ w2)) d = parse_bool_env (Some v) d ∧
  parse_bool_env (Some (lower v)) d = parse_bool_env (Some v) d ∧
  parse_bool_env None d = d.
Proof.
  intros H1 H2. unfold parse_bool_env. cbv beta iota zeta.
  rewrite !lower_app, strip_surround, lower_idem
    by (apply lstrip_lower_space; assumption).
  split; [done|]. split; [done|]. by destruct d.
Qed.

Lemma parse_bool_env_normalises_witness :
  lstrip " " = "" ∧ lstrip "  " = "" ∧
  parse_bool_env (Some (" " ++ "Yes" ++ "  ")) false = parse_bool_env (Some "Yes") false ∧
  parse_bool_env (Some (lower "Yes")) false = parse_bool_env (Some "Yes") false ∧
  parse_bool_env None false = false.
Proof.
  split; [reflexivity|]. split; [reflexivity|].
  apply parse_bool_env_normalises; reflexivity.
Defined.

(* ------------------------------------------------------------------ *)
(** ** The admin routes *)




Lemma find_key_by_name_some order tbl n k :
  find_key_by_name order tbl n = Some k → ∃ r, tbl !! k = Some r ∧ name r = n.
Proof.
  induction order as [|k0 ks IH]; simpl; [discriminate|].
  destruct (tbl !! k0) as [r|] eqn:E; [|exact IH].
  destruct (String.eqb_spec (name r) n); [|exact IH].
  intros [= <-]. by exists r.
Qed.

Lemma find_key_by_name_none order tbl n :
  (∀ k r, tbl !! k = Some r → name r ≠ n) → find_key_by_name order tbl n = None.
Proof.
  intros H. induction order as [|k0 ks IH]; simpl; [done|].
  destruct (tbl !! k0) as [r|] eqn:E; [|exact IH].
  destruct (String.eqb_spec (name r) n) as [Hn|]; [|exact IH].
  exfalso. exact (H k0 r E Hn).
Qed.

(** [update_key_status] answers 500 exactly when an admin caller sends a
    body that is not a JSON object, and then the registry is untouched:
    the key it found by name is in the table, so [activate_key] or
    [deactivate_key] never fails. *)
Theorem update_route_500_iff_malformed_body ADMIN_API_KEY s order state_api_key key_name body :
  (∀ s', update_key_status_route ADMIN_API_KEY s order state_api_key key_name body =
       (AdminError 500, s') →
     s' = s ∧ validate_admin_key ADMIN_API_KEY s state_api_key = true ∧
     ∀ fs, body ≠ Some (JObj fs)) ∧
  (validate_admin_key ADMIN_API_KEY s state_api_key = true →
   (∀ fs, body ≠ Some (JObj fs)) →
   update_key_status_route ADMIN_API_KEY s order state_api_key key_name body =
     (AdminError 500, s)).
Proof.
  unfold update_key_status_route. split.
  - intros s' H.
    destruct (validate_admin_key ADMIN_API_KEY s state_api_key); cbn [negb] in H;
      [|discriminate].
    destruct body as [[|b|z|str|l|fs]|];
      try (injection H as <-; split; [done|]; split; [done|]; intros fs ?; discriminate).
    exfalso. revert H.
    destruct (jget "is_active" (JObj fs)) as [v|]; [|discriminate].
    destruct v; try discriminate;
    (destruct (find_key_by_name order (api_keys s) key_name) as [k|] eqn:F; [|discriminate]);
    (destruct (String.eqb k ""); [discriminate|]);
    apply find_key_by_name_some in F as (r & Hr & _);
    unfold activate_key, deactivate_key; rewrite Hr;
    repeat case_match; discriminate.
  - intros V Hb. rewrite V. cbn [negb].
    destruct body as [[|b|z|str|l|fs]|]; try reflexivity. by destruct (Hb fs).
Qed.


(** [update_key_status] answers 404, and changes nothing, when no record
    carries the requested name (for an admin caller and a JSON object body
    whose ["is_active"] is present and not null). *)
Theorem update_route_unknown_name_404 ADMIN_API_KEY s order state_api_key key_name fs v :
  validate_admin_key ADMIN_API_KEY s state_api_key = true →
  jget "is_active" (JObj fs) = Some v → v ≠ JNull →
  (∀ k r, api_keys s !! k = Some r → name r ≠ key_name) →
  update_key_status_route ADMIN_API_KEY s order state_api_key key_name (Some (JObj fs)) =
    (AdminError 404, s).
Proof.
  intros Hadm J Hv Hnone. unfold update_key_status_route. rewrite Hadm. cbn [negb].
  rewrite J, find_key_by_name_none by exact Hnone.
  destruct v; [done|..]; reflexivity.
Qed.



Lemma update_route_500_iff_malformed_body_witness :
  update_key_status_route (Some "adm") (run_ops init_registry [OpCreate "a" "" "a" 1])
    ["sk-a"] (Some "adm") "a" None =
    (AdminError 500, run_ops init_registry [OpCreate "a" "" "a" 1]) ∧
  (update_key_status_route (Some "adm") (run_ops init_registry [OpCreate "a" "" "a" 1])
     ["sk-a"] (Some "adm") "a" (Some (JObj [("is_active", JBool false)]))).1 = AdminOk None.
Proof.
  split; [|reflexivity].
  apply (proj2 (update_route_500_iff_malformed_body (Some "adm")
    (run_ops init_registry [OpCreate "a" "" "a" 1]) ["sk-a"] (Some "adm") "a" None));
    [reflexivity|].
  intros fs. discriminate.
Defined.


Lemma update_route_unknown_name_404_witness :
  validate_admin_key (Some "adm") (run_ops init_registry [OpCreate "a" "" "a" 1]) (Some "adm")
    = true ∧
  update_key_status_route (Some "adm") (run_ops init_registry [OpCreate "a" "" "a" 1])
    ["sk-a"] (Some "adm") "zz" (Some (JObj [("is_active", JBool true)])) =
    (AdminError 404, run_ops init_registry [OpCreate "a" "" "a" 1]).
Proof.
  split; [reflexivity|].
  apply (update_route_unknown_name_404 _ _ _ _ _ _ (JBool true));
    [reflexivity | reflexivity | discriminate|].
  intros k r. simpl. rewrite lookup_insert_Some, lookup_empty.
  intros [[_ <-]|[_ H]]; [simpl; discriminate | discriminate H].
Defined.

(* ------------------------------------------------------------------ *)
(** ** Line terminators of the key file *)

Lemma py_lines_go_sep sep rest cur :
  sep ∈ [nl; cr; crlf] → (sep = cr → starts_lf rest = false) →
  py_lines_go (sep ++ rest) cur = (cur ++ nl) :: py_lines_go rest "".
Proof.
  intros Hs Hcr.
  repeat (apply elem_of_cons in Hs as [->|Hs]); [reflexivity | | reflexivity | by apply elem_of_nil in Hs].
  specialize (Hcr eq_refl).
  destruct rest as [|d r]; [reflexivity|].
  simpl in Hcr. unfold cr. cbn [String.append py_lines_go].
  rewrite Hcr. reflexivity.
Qed.

Lemma starts_lf_concat_cr y ls :
  no_newline y = true → starts_lf (String.concat cr (y :: ls)) = false.
Proof.
  intros Hy. destruct y as [|c y].
  - destruct ls; reflexivity.
  - unfold no_newline in Hy. cbn [str_mem] in Hy.
    apply andb_true_iff in Hy as [Hy _].
    apply negb_true_iff, orb_false_iff in Hy as [Hc _].
    destruct ls; cbn [String.concat String.append starts_lf];
      by rewrite Ascii.eqb_sym.
Qed.

Lemma parse_joined_sep now sep ls acc :
  sep ∈ [nl; cr; crlf] →
  Forall (λ l, no_newline l = true) ls →
  fold_left (load_line now) (py_text_lines (String.concat sep ls)) acc =
  fold_left (load_line now) ls acc.
Proof.
  intros Hs. unfold py_text_lines. revert acc.
  induction ls as [|x [|y ls] IH]; intros acc Hall.
  - reflexivity.
  - cbn [String.concat].
    rewrite <- (str_app_nil_r x), py_lines_go_plain by (inversion Hall; done).
    simpl. rewrite str_app_nil_r.
    destruct (String.eqb_spec x "") as [->|]; simpl; [|done].
    unfold load_line. simpl. done.
  - inversion Hall as [|? ? Hx Hrest]; subst. inversion Hrest as [|? ? Hy _]; subst.
    change (String.concat sep (x :: y :: ls)) with (x ++ sep ++ String.concat sep (y :: ls)).
    rewrite py_lines_go_plain by exact Hx.
    rewrite py_lines_go_sep by (done || (intros ->; by apply starts_lf_concat_cr)).
    cbn [fold_left]. simpl. rewrite load_line_nl. apply (IH (load_line now acc x) Hrest).
Qed.

(** [load_keys] reads a key file the same way whichever line terminator
    it was written with: ['\n'], ['\r'] or ["\r\n"] (text-mode universal
    newlines), provided no line holds a stray terminator. *)
Theorem load_keys_any_line_ending s mtime err now sep ls :
  sep ∈ [nl; cr; crlf] → Forall (λ l, no_newline l = true) ls →
  load_keys s (StorePresent mtime (py_text_lines (String.concat sep ls)) err) now =
  load_keys s (StorePresent mtime ls err) now.
Proof.
  intros Hs Hl. unfold load_keys, parse_lines. by rewrite parse_joined_sep.
Qed.

Lemma load_keys_any_line_ending_witness :
  crlf ∈ [nl; cr; crlf] ∧
  Forall (λ l, no_newline l = true) ["# keys"; "a:sk-a:x"; ""; "b:sk-b"] ∧
  load_keys init_registry (StorePresent 1
    (py_text_lines (String.concat crlf ["# keys"; "a:sk-a:x"; ""; "b:sk-b"])) false) 2 =
  load_keys init_registry (StorePresent 1 ["# keys"; "a:sk-a:x"; ""; "b:sk-b"] false) 2.
Proof.
  assert (Hs : crlf ∈ [nl; cr; crlf]) by (right; right; left).
  assert (Hl : Forall (λ l, no_newline l = true) ["# keys"; "a:sk-a:x"; ""; "b:sk-b"])
    by (repeat constructor).
  split; [exact Hs|]. split; [exact Hl|].
  exact (load_keys_any_line_ending init_registry 1 false 2 crlf _ Hs Hl).
Defined.

(* ------------------------------------------------------------------ *)
(** ** [list_api_keys] *)

Lemma keys_summary_go_is_Some (items : list (string * key_record))
    (acc : gmap string key_summary) n :
  is_Some (fold_left (λ (acc : gmap string key_summary) (kv : string * key_record),
             <[name kv.2 := summary_of kv.2]> acc) items acc !! n) ↔
  (∃ kv, kv ∈ items ∧ name kv.2 = n) ∨ is_Some (acc !! n).
Proof.
  revert acc. induction items as [|kv items IH]; intros acc; simpl.
  - split; [by right | intros [(kv & Hin & _)|H]; [by apply elem_of_nil in Hin | done]].
  - rewrite IH, lookup_insert_is_Some'. split.
    + intros [(kv' & Hin & Hn)|[<-|H]].
      * left. exists kv'. split; [by right|done].
      * left. exists kv. split; [by left|done].
      * by right.
    + intros [(kv' & Hin & Hn)|H].
      * apply elem_of_cons in Hin as [->|Hin].
        -- right. by left.
        -- left. by exists kv'.
      * right. by right.
Qed.

Lemma keys_summary_go_distinct (items : list (string * key_record))
    (acc : gmap string key_summary) :
  NoDup ((λ kv : string * key_record, name kv.2) <$> items) →
  fold_left (λ (acc : gmap string key_summary) (kv : string * key_record),
             <[name kv.2 := summary_of kv.2]> acc) items acc =
  list_to_map ((λ kv : string * key_record, (name kv.2, summary_of kv.2)) <$> items) ∪ acc.
Proof.
  revert acc. induction items as [|[k r] items IH]; intros acc Hnd.
  - simpl. by rewrite (left_id_L ∅ union).
  - rewrite fmap_cons in Hnd. inversion Hnd as [|? ? Hn Hnd']; subst.
    cbn [fold_left]. rewrite IH by exact Hnd'.
    rewrite fmap_cons, list_to_map_cons. cbn [fst snd].
    rewrite <- insert_union_l, insert_union_r; [done|].
    apply not_elem_of_list_to_map_1. rewrite <- list_fmap_compose. exact Hn.
Qed.

(** [list_api_keys] reports one entry per distinct name in the table and
    none other; when names are unique (as [create_api_key] keeps them), it
    has exactly ["total_keys"] entries and each record's summary is found
    under its name. *)
Theorem list_api_keys_summary ADMIN_API_KEY s state_api_key items now stats keys :
  items ≡ₚ map_to_list (api_keys s) →
  list_api_keys_route ADMIN_API_KEY s state_api_key items now = Some (stats, keys) →
  (∀ n, is_Some (keys !! n) ↔ ∃ k r, api_keys s !! k = Some r ∧ name r = n) ∧
  (names_unique (api_keys s) →
     size keys = st_total_keys stats ∧
     ∀ k r, api_keys s !! k = Some r → keys !! name r = Some (summary_of r)).
Proof.
  intros Hp. unfold list_api_keys_route. destruct (negb _); [discriminate|].
  intros [= <- <-]. split.
  - intros n. unfold keys_summary. rewrite keys_summary_go_is_Some, lookup_empty. split.
    + intros [([k r] & Hin & Hn)|[x Hx]]; [|discriminate].
      rewrite Hp in Hin. apply elem_of_map_to_list in Hin. by exists k, r.
    + intros (k & r & Hr & Hn). left. exists (k, r). split; [|done].
      rewrite Hp. by apply elem_of_map_to_list.
  - intros Hu.
    assert (Hnd : NoDup ((λ kv : string * key_record, name kv.2) <$> items)).
    { apply NoDup_fmap_2_strong; [|rewrite Hp; apply NoDup_map_to_list].
      intros [k1 r1] [k2 r2] H1 H2 Hn. rewrite Hp in H1, H2.
      apply elem_of_map_to_list in H1, H2. simpl in Hn.
      pose proof (Hu k1 k2 r1 r2 H1 H2 Hn) as <-. congruence. }
    unfold keys_summary. rewrite keys_summary_go_distinct by exact Hnd.
    rewrite (right_id_L ∅ union). split.
    + rewrite map_size_list_to_map.
      * unfold get_stats. cbn [st_total_keys]. rewrite !length_fmap.
        apply Permutation_length, Hp.
      * rewrite <- list_fmap_compose. exact Hnd.
    + intros k r Hr. apply elem_of_list_to_map_1.
      * rewrite <- list_fmap_compose. exact Hnd.
      * apply list_elem_of_fmap. exists (k, r). split; [done|].
        rewrite Hp. by apply elem_of_map_to_list.
Qed.

Lemma list_api_keys_summary_witness :
  list_api_keys_route (Some "adm") (run_ops init_registry [OpCreate "a" "" "x" 1])
    (Some "adm") (map_to_list (api_keys (run_ops init_registry [OpCreate "a" "" "x" 1]))) 2 =
  Some (get_stats (run_ops init_registry [OpCreate "a" "" "x" 1]) 2,
        keys_summary (map_to_list (api_keys (run_ops init_registry [OpCreate "a" "" "x" 1])))) ∧
  (∀ n, is_Some (keys_summary (map_to_list (api_keys (run_ops init_registry
          [OpCreate "a" "" "x" 1]))) !! n) ↔
     ∃ k r, api_keys (run_ops init_registry [OpCreate "a" "" "x" 1]) !! k = Some r ∧
       name r = n) ∧
  (names_unique (api_keys (run_ops init_registry [OpCreate "a" "" "x" 1])) →
     size (keys_summary (map_to_list (api_keys (run_ops init_registry
       [OpCreate "a" "" "x" 1])))) =
       st_total_keys (get_stats (run_ops init_registry [OpCreate "a" "" "x" 1]) 2) ∧
     ∀ k r, api_keys (run_ops init_registry [OpCreate "a" "" "x" 1]) !! k = Some r →
       keys_summary (map_to_list (api_keys (run_ops init_registry
         [OpCreate "a" "" "x" 1]))) !! name r = Some (summary_of r)).
Proof.
  split; [reflexivity|].
  exact (list_api_keys_summary (Some "adm") (run_ops init_registry [OpCreate "a" "" "x" 1])
    (Some "adm") (map_to_list (api_keys (run_ops init_registry [OpCreate "a" "" "x" 1]))) 2
    _ _ (reflexivity _) eq_refl).
Defined.

(** Deactivating a key withdraws the admin rights the registry gave it:
    afterwards [validate_admin_key] answers for that key as it would with
    an empty registry, that is, only a match with [ADMIN_API_KEY] still
    grants access. *)
Theorem deactivate_revokes_registry_admin ADMIN_API_KEY s k :
  validate_admin_key ADMIN_API_KEY (deactivate_key s (strip k)).2 (Some k) =
  validate_admin_key ADMIN_API_KEY init_registry (Some k).
Proof.
  unfold validate_admin_key, get_key_info.
  destruct (String.eqb k ""); [done|].
  replace (api_keys init_registry !! strip k) with (@None key_record)
    by (simpl; by rewrite lookup_empty).
  unfold deactivate_key.
  destruct (api_keys s !! strip k) as [r|] eqn:E; simpl.
  - rewrite lookup_insert_eq. simpl. by rewrite andb_false_r.
  - by rewrite E.
Qed.

(* ------------------------------------------------------------------ *)
(** ** [reload_api_keys] *)

Lemma Forall_values (P : key_record → Prop) (m : gmap string key_record) :
  (∀ k r, m !! k = Some r → P r) → Forall P (map_to_list m).*2.
Proof.
  intros H. apply Forall_forall. intros r Hin.
  apply list_elem_of_fmap in Hin as ([k r'] & -> & Hin).
  apply elem_of_map_to_list in Hin. exact (H k r' Hin).
Qed.

Lemma filter_all_active (l : list key_record) :
  Forall (λ r, is_active r = true) l → filter (λ r, is_active r = true) l = l.
Proof.
  induction 1 as [|r l Hr Hl IH]; [done|].
  rewrite filter_cons, decide_True by exact Hr. by rewrite IH.
Qed.

Lemma usage_sum_zero (l : list key_record) :
  Forall (λ r, usage_count r = 0%Z) l →
  foldr (λ r acc, (usage_count r + acc)%Z) 0%Z l = 0%Z.
Proof. induction 1 as [|r l Hr Hl IH]; simpl; lia. Qed.

(** After a successful [reload_api_keys], [get_stats] reports every key as
    active, a total usage of zero and the reload time of this call: the
    reload throws away all counters and deactivations. *)
Theorem reload_route_resets_stats ADMIN_API_KEY s state_api_key st now s' t :
  reload_api_keys_route ADMIN_API_KEY s state_api_key st now = (AdminOk None, s') →
  st_active_keys (get_stats s' t) = st_total_keys (get_stats s' t) ∧
  st_inactive_keys (get_stats s' t) = 0%nat ∧
  st_total_usage (get_stats s' t) = 0%Z ∧
  st_last_reload (get_stats s' t) = now.
Proof.
  unfold reload_api_keys_route. destruct (negb _); [discriminate|].
  destruct st as [|m ls err]; [discriminate|]. cbn [load_keys].
  destruct err; [discriminate|]. intros [= <-].
  destruct (parse_lines_ok now ls) as [_ Hfresh].
  unfold get_stats. cbn [st_active_keys st_total_keys st_inactive_keys st_total_usage
    st_last_reload api_keys last_reload_time].
  rewrite filter_all_active.
  2: { apply Forall_values. intros k r Hr. apply (Hfresh k r Hr). }
  rewrite usage_sum_zero.
  2: { apply Forall_values. intros k r Hr. apply (Hfresh k r Hr). }
  split; [done|]. split; [lia|]. done.
Qed.

Lemma reload_route_resets_stats_witness :
  reload_api_keys_route (Some "adm") init_registry (Some "adm")
    (StorePresent 1 ["a:sk-a"; "b:sk-b:x"] false) 4 =
    (AdminOk None, (load_keys init_registry (StorePresent 1 ["a:sk-a"; "b:sk-b:x"] false) 4).2) ∧
  st_active_keys (get_stats (load_keys init_registry
     (StorePresent 1 ["a:sk-a"; "b:sk-b:x"] false) 4).2 9) =
    st_total_keys (get_stats (load_keys init_registry
     (StorePresent 1 ["a:sk-a"; "b:sk-b:x"] false) 4).2 9) ∧
  st_inactive_keys (get_stats (load_keys init_registry
     (StorePresent 1 ["a:sk-a"; "b:sk-b:x"] false) 4).2 9) = 0%nat ∧
  st_total_usage (get_stats (load_keys init_registry
     (StorePresent 1 ["a:sk-a"; "b:sk-b:x"] false) 4).2 9) = 0%Z ∧
  st_last_reload (get_stats (load_keys init_registry
     (StorePresent 1 ["a:sk-a"; "b:sk-b:x"] false) 4).2 9) = 4%Z.
Proof.
  split; [reflexivity|].
  exact (reload_route_resets_stats (Some "adm") init_registry (Some "adm")
    (StorePresent 1 ["a:sk-a"; "b:sk-b:x"] false) 4 _ 9 eq_refl).
Defined.
